(** * Column-wise normalisation of dataframes ([utils/normalizer.py])

    The module has four functions, [zero_one_normalize],
    [negativeone_one_normalize], [standardize] and [robust_standardize].
    Each one splits the columns of a pandas dataframe into the excluded
    block and the numeric block, hands the numeric block to a scikit-learn
    scaler, wraps the resulting array in a fresh dataframe and joins it back
    to the excluded block.

    The embedding follows the source line by line.  What the source takes
    from pandas and scikit-learn ([df[names]], [select_dtypes],
    [fit_transform], [pd.DataFrame], [reset_index], [join], [list.extend])
    is written out as functions of the same names.  Floating-point numbers
    are idealised as exact numbers: rationals for the min-max and robust
    scalers, reals for the standard scaler, whose scale is a square root.
    A missing cell (NaN) is [None].

    The scalers of scikit-learn compute in float64, so the exact scalers
    below give the values of a scaled column up to rounding only.  What is
    stated about those values is therefore either independent of rounding
    (which row a value comes from, missing cells, order, sign) or carries
    an explicit tolerance; the lemmas that give exact values say so.  A
    numeric column holds finite numbers or NaN: columns that
    [select_dtypes] counts as numbers but the scalers refuse
    ([timedelta64], complex numbers) and infinite values are outside the
    model. *)

From Stdlib Require Import List String ZArith QArith Qminmax Qround Bool Lia.
From Stdlib Require Import Reals Lra Lqa.
Import ListNotations.

Set Implicit Arguments.

(** ** Exceptions *)

Inductive exn : Type :=
| KeyError (missing : list string)
| ValueError.

Inductive result (A : Type) : Type :=
| Ok (a : A)
| Raise (e : exn).

Arguments Ok {A} a.
Arguments Raise {A} e.

Definition bind {A B : Type} (r : result A) (k : A -> result B) : result B :=
  match r with
  | Ok a => k a
  | Raise e => Raise e
  end.

Notation "x <- c ;; k" := (bind c (fun x => k))
  (at level 61, c at next level, right associativity).

(** ** Dataframes *)

(** [name in names], on Python lists of column names. *)
Definition mem (name : string) (names : list string) : bool :=
  existsb (String.eqb name) names.

(** [RangeIndex(n)]: the labels 0, 1, ..., n-1. *)
Definition RangeIndex (n : nat) : list Z := map Z.of_nat (seq 0 n).

(** Position of the first row that carries the label [l]. *)
Fixpoint position (labels : list Z) (l : Z) : option nat :=
  match labels with
  | [] => None
  | l' :: rest =>
      if Z.eqb l' l then Some 0%nat
      else option_map S (position rest l)
  end.

(** The values of a column that are not missing (what [nanmin], [nanmean]
    and pandas' own [mean] and [std] look at). *)
Definition present {A : Type} (v : list (option A)) : list A :=
  flat_map (fun o => match o with Some x => [x] | None => [] end) v.

Section Frame.

(** The type of numbers, and the embedding of integer labels into it
    (used when [reset_index] turns the index into a column). *)
Variable num : Type.
Variable of_Z : Z -> num.

(** A column has a numeric dtype or it has not ([object], [bool],
    [datetime64], ...): this is all that [select_dtypes] asks. *)
Inductive coldata : Type :=
| NumData (v : list (option num))
| ObjData (v : list (option string)).

Record column : Type := mkcol { cname : string; cdata : coldata }.

Record DataFrame : Type := mkdf { index : list Z; columns : list column }.

(** An array of shape (n_samples, n_features), stored feature by feature. *)
Record ndarray : Type := mknd { n_samples : nat; features : list (list (option num)) }.

Definition is_number (c : column) : bool :=
  match cdata c with NumData _ => true | ObjData _ => false end.

Definition col_length (c : column) : nat :=
  match cdata c with NumData v => List.length v | ObjData v => List.length v end.

(** [list(df)]: the column names, in order. *)
Definition list_df (df : DataFrame) : list string := map cname (columns df).

Definition nrows (df : DataFrame) : nat := List.length (index df).

(** Every column has one value per row. *)
Definition well_formed (df : DataFrame) : Prop :=
  Forall (fun c => col_length c = nrows df) (columns df).

(** [df[names]] with a list of names: a [KeyError] that lists the names
    that are no column of [df]; otherwise, for each name in turn, every
    column of that name. The index is kept. *)
Definition getitem (df : DataFrame) (names : list string) : result DataFrame :=
  match filter (fun n => negb (mem n (list_df df))) names with
  | [] =>
      Ok (mkdf (index df)
            (flat_map (fun n => filter (fun c => String.eqb (cname c) n) (columns df))
               names))
  | missing => Raise (KeyError missing)
  end.

(** [df.select_dtypes(include=np.number)] when [number] is [true],
    [df.select_dtypes(exclude=np.number)] when it is [false]. *)
Definition select_dtypes (number : bool) (df : DataFrame) : DataFrame :=
  mkdf (index df) (filter (fun c => Bool.eqb (is_number c) number) (columns df)).

(** The input validation of the scikit-learn scalers ([check_array]):
    the block is converted to a float array, which fails on a column
    that does not hold numbers, and must have at least one sample and at
    least one feature; each failure is a [ValueError]. *)
Fixpoint as_float (cols : list column) : result (list (list (option num))) :=
  match cols with
  | [] => Ok []
  | c :: rest =>
      match cdata c with
      | NumData v => vs <- as_float rest ;; Ok (v :: vs)
      | ObjData _ => Raise ValueError
      end
  end.

Definition check_array (df : DataFrame) : result ndarray :=
  X <- as_float (columns df) ;;
  if Nat.eqb (nrows df) 0 then Raise ValueError
  else if Nat.eqb (List.length X) 0 then Raise ValueError
  else Ok (mknd (nrows df) X).

(** [scaler.fit_transform(df)]: every scikit-learn scaler used here works
    feature by feature; [scale] is what it does to one feature. *)
Definition fit_transform (scale : list (option num) -> list (option num))
    (df : DataFrame) : result ndarray :=
  X <- check_array df ;;
  Ok (mknd (n_samples X) (map scale (features X))).

(** [pd.DataFrame(res_ndarray, columns=names, dtype=float)]: a fresh
    dataframe over [RangeIndex(n_samples)]; a [ValueError] when the
    number of names is not the number of features. *)
Definition DataFrame_of (X : ndarray) (names : list string) : result DataFrame :=
  if Nat.eqb (List.length names) (List.length (features X)) then
    Ok (mkdf (RangeIndex (n_samples X))
          (map (fun nv => mkcol (fst nv) (NumData (snd nv)))
             (combine names (features X))))
  else Raise ValueError.

(** [df.reset_index()], for an index without a name: returns a NEW
    dataframe over [RangeIndex] whose first column holds the old labels,
    named "index", or "level_0" when "index" is taken; a [ValueError]
    when that name is taken too. [df] itself is left as it is. *)
Definition reset_index (df : DataFrame) : result DataFrame :=
  let name := if mem "index" (list_df df) then "level_0"%string else "index"%string in
  if mem name (list_df df) then Raise ValueError
  else
    Ok (mkdf (RangeIndex (nrows df))
          (mkcol name (NumData (map (fun l => Some (of_Z l)) (index df)))
             :: columns df)).

(** The values of a column of the right frame, brought to the rows of
    the left frame by index LABEL: a left row whose label is no label
    of the right frame gets a missing value. *)
Definition take {A : Type} (right_index left_index : list Z)
    (v : list (option A)) : list (option A) :=
  map (fun l => match position right_index l with
                | Some i => nth i v None
                | None => None
                end) left_index.

Definition reindex (right_index left_index : list Z) (c : column) : column :=
  mkcol (cname c)
    (match cdata c with
     | NumData v => NumData (take right_index left_index v)
     | ObjData v => ObjData (take right_index left_index v)
     end).

(** [left.join(right)]: a left join on the index labels, for a right
    frame whose labels are distinct (as those of a [RangeIndex] are);
    a [ValueError] when a column name occurs on both sides. *)
Definition join (left right : DataFrame) : result DataFrame :=
  if existsb (fun n => mem n (list_df right)) (list_df left) then Raise ValueError
  else
    Ok (mkdf (index left)
          (columns left ++ map (reindex (index right) (index left)) (columns right))).

(** [names.extend(more)], as the new content of the list object. *)
Definition extend (names more : list string) : list string := names ++ more.

(** The body shared, word for word, by the four functions of the module;
    they differ in the scaler only.  The second component is the content
    of the list object [excluded_colnames] when the call ends, whether it
    returns or raises. *)
Definition normalize (scale : list (option num) -> list (option num))
    (df : DataFrame) (excluded_colnames : list string)
  : result DataFrame * list string :=
  let numeric_colnames :=
    filter (fun colname => negb (mem colname excluded_colnames)) (list_df df) in
  match getitem df numeric_colnames with
  | Raise e => (Raise e, excluded_colnames)
  | Ok candidates =>
      let df_numeric := select_dtypes true candidates in
      match getitem df numeric_colnames with
      | Raise e => (Raise e, excluded_colnames)
      | Ok candidates' =>
          let excluded_colnames :=
            extend excluded_colnames (list_df (select_dtypes false candidates')) in
          (df_ids_labels <- getitem df excluded_colnames ;;
           res_ndarray <- fit_transform scale df_numeric ;;
           df_numeric <- DataFrame_of res_ndarray (list_df df_numeric) ;;
           _ <- reset_index df_ids_labels ;;
           _ <- reset_index df_numeric ;;
           df_norm <- join df_ids_labels df_numeric ;;
           Ok df_norm,
           excluded_colnames)
      end
  end.

End Frame.

Arguments NumData {num} v.
Arguments ObjData {num} v.

(** ** The scalers *)

(** *** [MinMaxScaler(feature_range)] *)

Module MinMax.
Local Open Scope Q_scope.

(** [np.nanmin] and [np.nanmax] of the values that are present. *)
Definition nanmin (v : list Q) : option Q :=
  match v with
  | [] => None
  | x :: rest => Some (fold_left Qmin rest x)
  end.

Definition nanmax (v : list Q) : option Q :=
  match v with
  | [] => None
  | x :: rest => Some (fold_left Qmax rest x)
  end.

(** scikit-learn's guard for a constant feature: a zero scale becomes 1. *)
Definition handle_zeros_in_scale (s : Q) : Q :=
  if Qeq_bool s 0 then 1 else s.

(** [fit] finds [data_min_] and [data_max_] of the feature and sets
    [scale_ = (hi - lo) / handle_zeros(data_max_ - data_min_)] and
    [min_ = lo - data_min_ * scale_]; [transform] is [X * scale_ + min_].
    Missing values are passed through; a feature with no value at all
    has no statistics and stays as it is. *)
Definition MinMaxScaler (feature_range : Q * Q) (X : list (option Q))
  : list (option Q) :=
  match nanmin (present X), nanmax (present X) with
  | Some data_min, Some data_max =>
      let data_range := data_max - data_min in
      let scale_ :=
        (snd feature_range - fst feature_range) / handle_zeros_in_scale data_range in
      let min_ := fst feature_range - data_min * scale_ in
      map (option_map (fun x => x * scale_ + min_)) X
  | _, _ => X
  end.

End MinMax.

(** *** [RobustScaler()] *)

Module Robust.
Local Open Scope Q_scope.

Fixpoint insert (x : Q) (l : list Q) : list Q :=
  match l with
  | [] => [x]
  | y :: rest => if Qle_bool x y then x :: l else y :: insert x rest
  end.

Definition sort (l : list Q) : list Q := fold_right insert [] l.

(** [np.nanpercentile(v, q)] with linear interpolation, on the sorted
    values: the virtual position is [(n - 1) * q / 100]. *)
Definition percentile (q : Q) (sorted : list Q) : Q :=
  let n := List.length sorted in
  let h := inject_Z (Z.of_nat (n - 1)) * q / 100 in
  let lo := Qfloor h in
  let a := nth (Z.to_nat lo) sorted 0 in
  let b := nth (S (Z.to_nat lo)) sorted a in
  a + (h - inject_Z lo) * (b - a).

(** [np.nanmedian]: the middle value, or the mean of the two middle ones. *)
Definition median (sorted : list Q) : Q :=
  let n := List.length sorted in
  if Nat.even n then
    (nth (n / 2 - 1) sorted 0 + nth (n / 2) sorted 0) / 2
  else nth (n / 2) sorted 0.

Definition handle_zeros_in_scale (s : Q) : Q :=
  if Qeq_bool s 0 then 1 else s.

(** [center_] is the median, [scale_] the interquartile range (25th to
    75th percentile) with the guard for zero; [transform] is
    [(X - center_) / scale_]. *)
Definition RobustScaler (X : list (option Q)) : list (option Q) :=
  match present X with
  | [] => X
  | _ =>
      let sorted := sort (present X) in
      let center_ := median sorted in
      let scale_ :=
        handle_zeros_in_scale (percentile 75 sorted - percentile 25 sorted) in
      map (option_map (fun x => (x - center_) / scale_)) X
  end.

End Robust.

(** *** [StandardScaler()] *)

Module Standard.
Local Open Scope R_scope.

Definition sum (v : list R) : R := fold_right Rplus 0 v.

Definition mean (v : list R) : R := sum v / INR (List.length v).

(** The population variance and standard deviation (divisor n). *)
Definition var (v : list R) : R :=
  sum (map (fun x => (x - mean v) * (x - mean v)) v) / INR (List.length v).

Definition std (v : list R) : R := sqrt (var v).

Definition handle_zeros_in_scale (s : R) : R :=
  if Req_dec_T s 0 then 1 else s.

(** [mean_] and [var_] are taken over the values that are present,
    [scale_ = handle_zeros(sqrt(var_))]; [transform] is
    [(X - mean_) / scale_]. *)
Definition StandardScaler (X : list (option R)) : list (option R) :=
  match present X with
  | [] => X
  | _ =>
      let mean_ := mean (present X) in
      let scale_ := handle_zeros_in_scale (std (present X)) in
      map (option_map (fun x => (x - mean_) / scale_)) X
  end.

End Standard.

(** ** The four functions of [normalizer.py] *)

Definition zero_one_normalize (df : DataFrame Q) (excluded_colnames : list string)
  : result (DataFrame Q) * list string :=
  normalize inject_Z (MinMax.MinMaxScaler (0, 1)%Q) df excluded_colnames.

Definition negativeone_one_normalize (df : DataFrame Q) (excluded_colnames : list string)
  : result (DataFrame Q) * list string :=
  normalize inject_Z (MinMax.MinMaxScaler (-1, 1)%Q) df excluded_colnames.

Definition standardize (df : DataFrame R) (excluded_colnames : list string)
  : result (DataFrame R) * list string :=
  normalize IZR Standard.StandardScaler df excluded_colnames.

Definition robust_standardize (df : DataFrame Q) (excluded_colnames : list string)
  : result (DataFrame Q) * list string :=
  normalize inject_Z Robust.RobustScaler df excluded_colnames.

(** ** Calls, and the list objects they share *)

Inductive func : Type := ZeroOne | NegativeOneOne | Standardize | RobustStandardize.

(** The numbers a function works on. *)
Definition num_of (f : func) : Type :=
  match f with
  | Standardize => R
  | _ => Q
  end.

Definition run (f : func) : DataFrame (num_of f) -> list string ->
                            result (DataFrame (num_of f)) * list string :=
  match f with
  | ZeroOne => zero_one_normalize
  | NegativeOneOne => negativeone_one_normalize
  | Standardize => standardize
  | RobustStandardize => robust_standardize
  end.

(** A list object is either the default of one of the functions, made once
    when the [def] is executed ([excluded_colnames: list = []]), or a list
    of the caller's. *)
Inductive loc : Type :=
| DefaultOf (f : func)
| Caller (n : nat).

Definition func_eqb (f g : func) : bool :=
  match f, g with
  | ZeroOne, ZeroOne | NegativeOneOne, NegativeOneOne
  | Standardize, Standardize | RobustStandardize, RobustStandardize => true
  | _, _ => false
  end.

Definition loc_eqb (l l' : loc) : bool :=
  match l, l' with
  | DefaultOf f, DefaultOf g => func_eqb f g
  | Caller n, Caller m => Nat.eqb n m
  | _, _ => false
  end.

Definition store : Type := loc -> list string.

(** The store right after the module is imported: every default is []. *)
Definition initial_store (caller : nat -> list string) : store :=
  fun l => match l with DefaultOf _ => [] | Caller n => caller n end.

Definition update (st : store) (l : loc) (v : list string) : store :=
  fun l' => if loc_eqb l l' then v else st l'.

(** [f(df, arg)], or [f(df)] when [arg] is [None]: the parameter
    [excluded_colnames] is bound to the caller's list object or to the
    function's default object, and what the body does to it stays in the
    store. *)
Definition call (f : func) (df : DataFrame (num_of f)) (arg : option loc) (st : store)
  : result (DataFrame (num_of f)) * store :=
  let l := match arg with Some l => l | None => DefaultOf f end in
  let '(r, v) := run f df (st l) in
  (r, update st l v).

(** ** What the shared body does *)

Lemma mem_In (n : string) (l : list string) : mem n l = true <-> In n l.
Proof.
  unfold mem. rewrite existsb_exists. split.
  - intros [x [Hx E]]. apply String.eqb_eq in E. now subst.
  - intros H. exists n. split; [assumption | apply String.eqb_refl].
Qed.

Lemma mem_false (n : string) (l : list string) : mem n l = false <-> ~ In n l.
Proof.
  rewrite <- mem_In. destruct (mem n l); split; intros; congruence.
Qed.

Section FrameFacts.

Variable num : Type.
Variable of_Z : Z -> num.
Variable scale : list (option num) -> list (option num).

Abbreviation column := (column num).
Abbreviation DataFrame := (DataFrame num).

(** The names the body computes at its first line. *)
Definition numeric_colnames (df : DataFrame) (excluded : list string) : list string :=
  filter (fun colname => negb (mem colname excluded)) (list_df df).

(** The columns of [df[names]]. *)
Definition pick (df : DataFrame) (names : list string) : list column :=
  flat_map (fun n => filter (fun c => String.eqb (cname c) n) (columns df)) names.

(** The candidates [df[numeric_colnames]], and its two halves. *)
Definition candidates (df : DataFrame) (excluded : list string) : list column :=
  pick df (numeric_colnames df excluded).

Definition numeric_block (df : DataFrame) (excluded : list string) : list column :=
  filter (fun c => Bool.eqb (is_number c) true) (candidates df excluded).

Definition non_numeric_block (df : DataFrame) (excluded : list string) : list column :=
  filter (fun c => Bool.eqb (is_number c) false) (candidates df excluded).

(** The content of [excluded_colnames] after [extend]. *)
Definition extended (df : DataFrame) (excluded : list string) : list string :=
  excluded ++ map (@cname num) (non_numeric_block df excluded).

Definition values (c : column) : list (option num) :=
  match cdata c with NumData v => v | ObjData _ => [] end.

(** A numeric column after the scaler, before the join. *)
Definition scaled (c : column) : column := mkcol (cname c) (NumData (scale (values c))).

Lemma In_pick (df : DataFrame) (names : list string) (c : column) :
  In c (pick df names) <-> In c (columns df) /\ In (cname c) names.
Proof.
  unfold pick. rewrite in_flat_map. split.
  - intros [n [Hn Hc]]. apply filter_In in Hc. destruct Hc as [Hc E].
    apply String.eqb_eq in E. subst. now split.
  - intros [Hc Hn]. exists (cname c). split; [assumption|].
    apply filter_In. split; [assumption | apply String.eqb_refl].
Qed.

Lemma getitem_inv (df d : DataFrame) (names : list string) :
  getitem df names = Ok d ->
  d = mkdf (index df) (pick df names) /\
  forall n, In n names -> In n (list_df df).
Proof.
  unfold getitem.
  destruct (filter (fun n => negb (mem n (list_df df))) names) as [|m ms] eqn:F;
    [|discriminate].
  intros H. injection H as <-. split; [reflexivity|].
  intros n Hn. apply mem_In.
  destruct (mem n (list_df df)) eqn:M; [reflexivity|].
  assert (In n (filter (fun n => negb (mem n (list_df df))) names)) as Hin.
  { apply filter_In. split; [assumption | now rewrite M]. }
  rewrite F in Hin. destruct Hin.
Qed.

Lemma getitem_present (df : DataFrame) (names : list string) :
  (forall n, In n names -> In n (list_df df)) ->
  getitem df names = Ok (mkdf (index df) (pick df names)).
Proof.
  intros H. unfold getitem.
  destruct (filter (fun n => negb (mem n (list_df df))) names) as [|m ms] eqn:F;
    [reflexivity|].
  assert (In m (filter (fun n => negb (mem n (list_df df))) names)) as Hin
      by (rewrite F; now left).
  apply filter_In in Hin. destruct Hin as [Hm Hneg].
  apply H, mem_In in Hm. rewrite Hm in Hneg. discriminate.
Qed.

Lemma getitem_missing (df : DataFrame) (names : list string) (n : string) :
  In n names -> ~ In n (list_df df) -> exists ms, getitem df names = Raise (KeyError ms).
Proof.
  intros Hn Hm. unfold getitem.
  destruct (filter (fun n => negb (mem n (list_df df))) names) as [|m ms] eqn:F.
  - assert (In n (filter (fun n => negb (mem n (list_df df))) names)) as Hin.
    { apply filter_In. split; [assumption|]. apply mem_false in Hm. now rewrite Hm. }
    rewrite F in Hin. destruct Hin.
  - now exists (m :: ms).
Qed.

Lemma getitem_candidates (df : DataFrame) (excluded : list string) :
  getitem df (numeric_colnames df excluded) =
  Ok (mkdf (index df) (candidates df excluded)).
Proof.
  apply getitem_present. intros n Hn. unfold numeric_colnames in Hn.
  apply filter_In in Hn. tauto.
Qed.

Lemma as_float_numbers (cols : list column) :
  as_float (filter (fun c => Bool.eqb (is_number c) true) cols) =
  Ok (map values (filter (fun c => Bool.eqb (is_number c) true) cols)).
Proof.
  induction cols as [|c cols IH]; [reflexivity|].
  simpl. destruct (is_number c) eqn:N; simpl; [|exact IH].
  unfold is_number in N. unfold values at 1.
  destruct (cdata c) as [v|v] eqn:E; [|discriminate].
  rewrite IH. reflexivity.
Qed.

(** The list object after the call, whether the call returns or raises. *)
Lemma normalize_snd (df : DataFrame) (excluded : list string) :
  snd (normalize of_Z scale df excluded) = extended df excluded.
Proof.
  unfold normalize. fold (numeric_colnames df excluded).
  rewrite getitem_candidates. reflexivity.
Qed.

(** The body, with the two lookups of the candidates resolved. *)
Lemma normalize_fst (df : DataFrame) (excluded : list string) :
  fst (normalize of_Z scale df excluded) =
  (df_ids_labels <- getitem df (extended df excluded) ;;
   res_ndarray <-
     fit_transform scale (mkdf (index df) (numeric_block df excluded)) ;;
   df_numeric <-
     DataFrame_of res_ndarray (map (@cname num) (numeric_block df excluded)) ;;
   _ <- reset_index of_Z df_ids_labels ;;
   _ <- reset_index of_Z df_numeric ;;
   join df_ids_labels df_numeric).
Proof.
  unfold normalize. fold (numeric_colnames df excluded).
  rewrite getitem_candidates. simpl.
  destruct (getitem df _) as [ids|e]; simpl; [|reflexivity].
  fold (numeric_block df excluded).
  destruct (fit_transform scale _) as [X|e]; simpl; [|reflexivity].
  unfold list_df. simpl.
  destruct (DataFrame_of X _) as [d|e]; simpl; [|reflexivity].
  destruct (reset_index of_Z ids) as [r|e]; simpl; [|reflexivity].
  destruct (reset_index of_Z d) as [r'|e]; simpl; [|reflexivity].
  destruct (join ids d); reflexivity.
Qed.

Lemma combine_names_values (cols : list column) :
  map (fun nv : string * list (option num) => mkcol (fst nv) (NumData (snd nv)))
    (combine (map (@cname num) cols) (map scale (map values cols))) =
  map scaled cols.
Proof.
  induction cols as [|c cols IH]; [reflexivity|]. simpl. now rewrite IH.
Qed.

(** A call that returns: the excluded names are all columns of [df],
    there is at least one row and one numeric candidate, and the result
    is the excluded block followed by the scaled numeric block, the
    latter brought to the rows of the former by LABEL, from the fresh
    [RangeIndex] that [pd.DataFrame] gave it. *)
Lemma normalize_Ok (df out : DataFrame) (excluded : list string) :
  fst (normalize of_Z scale df excluded) = Ok out ->
  (forall n, In n (extended df excluded) -> In n (list_df df)) /\
  nrows df <> 0%nat /\
  numeric_block df excluded <> [] /\
  (forall n, In n (extended df excluded) ->
             ~ In n (map (@cname num) (numeric_block df excluded))) /\
  out = mkdf (index df)
          (pick df (extended df excluded) ++
           map (fun c => reindex (RangeIndex (nrows df)) (index df) (scaled c))
             (numeric_block df excluded)).
Proof.
  rewrite normalize_fst.
  destruct (getitem df (extended df excluded)) as [ids|e] eqn:G; [|discriminate].
  apply getitem_inv in G. destruct G as [-> Hnames]. simpl.
  unfold fit_transform, check_array. simpl.
  unfold numeric_block at 1. rewrite as_float_numbers. simpl.
  fold (numeric_block df excluded).
  unfold nrows at 1. simpl. fold (nrows df).
  destruct (Nat.eqb (nrows df) 0) eqn:Hrows; [discriminate|].
  rewrite length_map.
  destruct (Nat.eqb (List.length (numeric_block df excluded)) 0) eqn:Hlen;
    [discriminate|].
  simpl. unfold DataFrame_of. simpl. rewrite !length_map, Nat.eqb_refl. simpl.
  rewrite combine_names_values.
  destruct (reset_index of_Z (mkdf (index df) (pick df (extended df excluded))));
    [simpl|discriminate].
  destruct (reset_index of_Z _); [simpl|discriminate].
  unfold join. simpl.
  destruct (existsb _ _) eqn:Hover; [discriminate|].
  intros H. injection H as <-.
  split; [assumption|]. split; [now apply Nat.eqb_neq|].
  split; [intros Hnil; rewrite Hnil in Hlen; discriminate|]. split.
  - intros n Hn Hright.
    apply Bool.not_true_iff_false in Hover. apply Hover.
    apply existsb_exists. exists n. split.
    + unfold list_df. simpl. apply in_map_iff.
      pose proof (Hnames _ Hn) as Hd. unfold list_df in Hd.
      apply in_map_iff in Hd.
      destruct Hd as [c [Hc Hin]]. exists c. split; [assumption|].
      apply In_pick. split; [assumption|]. now rewrite Hc.
    + apply mem_In. unfold list_df. simpl. rewrite map_map. simpl. assumption.
  - simpl. rewrite map_map. reflexivity.
Qed.

End FrameFacts.

(** ** Joining on labels *)

Lemma position_range_from (a n i : nat) :
  (a <= i < a + n)%nat ->
  position (map Z.of_nat (seq a n)) (Z.of_nat i) = Some (i - a)%nat.
Proof.
  revert a. induction n as [|n IH]; intros a H; [lia|].
  simpl. destruct (Z.eqb (Z.of_nat a) (Z.of_nat i)) eqn:E.
  - apply Z.eqb_eq in E. f_equal. lia.
  - apply Z.eqb_neq in E. rewrite IH by lia. simpl. f_equal. lia.
Qed.

Lemma position_range (n i : nat) :
  (i < n)%nat -> position (RangeIndex n) (Z.of_nat i) = Some i.
Proof.
  intros H. unfold RangeIndex. rewrite position_range_from by lia.
  f_equal. lia.
Qed.

Lemma position_absent (labels : list Z) (l : Z) :
  ~ In l labels -> position labels l = None.
Proof.
  induction labels as [|l' rest IH]; intros H; [reflexivity|].
  simpl. destruct (Z.eqb l' l) eqn:E.
  - apply Z.eqb_eq in E. exfalso. apply H. now left.
  - rewrite IH; [reflexivity|]. intros Hin. apply H. now right.
Qed.

Lemma In_RangeIndex (n : nat) (l : Z) :
  In l (RangeIndex n) <-> (0 <= l < Z.of_nat n)%Z.
Proof.
  unfold RangeIndex. rewrite in_map_iff. split.
  - intros [i [<- Hi]]. apply in_seq in Hi. lia.
  - intros H. exists (Z.to_nat l). split; [lia|]. apply in_seq. lia.
Qed.

Lemma nth_seq_all {A : Type} (d : A) (v : list A) :
  map (fun i => nth i v d) (seq 0 (List.length v)) = v.
Proof.
  induction v as [|x v IH]; [reflexivity|].
  simpl. f_equal. rewrite <- seq_shift, map_map. exact IH.
Qed.

(** Over the default index the join is by position: the right frame's
    [RangeIndex] has the very labels of the left frame, in order. *)
Lemma take_range {A : Type} (n : nat) (v : list (option A)) :
  List.length v = n -> take (RangeIndex n) (RangeIndex n) v = v.
Proof.
  intros <-. unfold take, RangeIndex at 2. rewrite map_map.
  rewrite <- (nth_seq_all None v) at 2.
  apply map_ext_in. intros i Hi. apply in_seq in Hi.
  rewrite position_range by lia. reflexivity.
Qed.

(** A left frame none of whose labels is below the row count gets nothing
    but missing values. *)
Lemma take_disjoint {A : Type} (n : nat) (labels : list Z) (v : list (option A)) :
  (forall l, In l labels -> ~ (0 <= l < Z.of_nat n)%Z) ->
  take (RangeIndex n) labels v = map (fun _ => None) labels.
Proof.
  intros H. unfold take. apply map_ext_in. intros l Hl.
  rewrite position_absent; [reflexivity|].
  rewrite In_RangeIndex. now apply H.
Qed.

Lemma length_take {A : Type} (ri li : list Z) (v : list (option A)) :
  List.length (take ri li v) = List.length li.
Proof. unfold take. apply length_map. Qed.

Section Positional.

Variable num : Type.
Variable of_Z : Z -> num.
Variable scale : list (option num) -> list (option num).
Hypothesis scale_length : forall v, List.length (scale v) = List.length v.

Abbreviation column := (column num).
Abbreviation DataFrame := (DataFrame num).

Lemma In_numeric_block (df : DataFrame) (excluded : list string) (c : column) :
  In c (numeric_block df excluded) <->
  In c (columns df) /\ ~ In (cname c) excluded /\ is_number c = true.
Proof.
  unfold numeric_block, candidates, numeric_colnames.
  rewrite filter_In, In_pick, filter_In. unfold list_df.
  rewrite negb_true_iff, mem_false. split.
  - intros [[Hc [_ Hex]] Hn]. destruct (is_number c); [tauto|discriminate].
  - intros [Hc [Hex Hn]]. rewrite Hn. repeat split; try assumption.
    now apply in_map.
Qed.

Lemma In_non_numeric_block (df : DataFrame) (excluded : list string) (c : column) :
  In c (non_numeric_block df excluded) <->
  In c (columns df) /\ ~ In (cname c) excluded /\ is_number c = false.
Proof.
  unfold non_numeric_block, candidates, numeric_colnames.
  rewrite filter_In, In_pick, filter_In. unfold list_df.
  rewrite negb_true_iff, mem_false. split.
  - intros [[Hc [_ Hex]] Hn]. destruct (is_number c); [discriminate|tauto].
  - intros [Hc [Hex Hn]]. rewrite Hn. repeat split; try assumption.
    now apply in_map.
Qed.

Lemma values_length (df : DataFrame) (excluded : list string) (c : column) :
  well_formed df -> In c (numeric_block df excluded) ->
  List.length (values c) = nrows df.
Proof.
  intros Hwf Hc. apply In_numeric_block in Hc. destruct Hc as [Hc [_ Hn]].
  unfold well_formed in Hwf. rewrite Forall_forall in Hwf.
  specialize (Hwf c Hc). unfold col_length in Hwf.
  unfold is_number in Hn. unfold values.
  destruct (cdata c); [assumption|discriminate].
Qed.

(** Over the default index, the result is the excluded block followed by
    the scaled numeric block, row for row. *)
Lemma normalize_positional (df out : DataFrame) (excluded : list string) :
  well_formed df ->
  index df = RangeIndex (nrows df) ->
  fst (normalize of_Z scale df excluded) = Ok out ->
  out = mkdf (index df)
          (pick df (extended df excluded) ++
           map (scaled scale) (numeric_block df excluded)).
Proof.
  intros Hwf Hidx H. apply normalize_Ok in H.
  destruct H as [_ [_ [_ [_ ->]]]]. f_equal. f_equal.
  apply map_ext_in. intros c Hc. unfold reindex, scaled. simpl. f_equal. f_equal.
  rewrite Hidx at 1. apply take_range.
  rewrite scale_length. now apply values_length with (excluded := excluded).
Qed.

End Positional.

(** ** Dataframes with distinct column names *)

Section DistinctNames.

Variable num : Type.

Abbreviation column := (column num).
Abbreviation DataFrame := (DataFrame num).

(** The columns of [df] whose name is not in [excluded], in the order
    of [df]. *)
Definition not_excluded (excluded : list string) (df : DataFrame) : list column :=
  filter (fun c => negb (mem (cname c) excluded)) (columns df).

Lemma filter_name_absent (cols : list column) (n : string) :
  ~ In n (map (@cname num) cols) ->
  filter (fun c' => String.eqb (cname c') n) cols = [].
Proof.
  induction cols as [|d cols IH]; intros H; [reflexivity|].
  simpl. destruct (String.eqb (cname d) n) eqn:E.
  - apply String.eqb_eq in E. exfalso. apply H. now left.
  - apply IH. intros Hin. apply H. now right.
Qed.

Lemma filter_name_unique (cols : list column) (c : column) :
  NoDup (map (@cname num) cols) -> In c cols ->
  filter (fun c' => String.eqb (cname c') (cname c)) cols = [c].
Proof.
  induction cols as [|c' cols IH]; intros Hnd Hin; [destruct Hin|].
  simpl in Hnd. inversion Hnd as [|x xs Hnotin Hnd']; subst.
  simpl. destruct Hin as [-> | Hin].
  - rewrite String.eqb_refl. f_equal. now apply filter_name_absent.
  - destruct (String.eqb (cname c') (cname c)) eqn:E.
    + apply String.eqb_eq in E. exfalso. apply Hnotin. rewrite E.
      now apply in_map.
    + now apply IH.
Qed.

Lemma pick_names_of (df : DataFrame) (l : list column) :
  NoDup (list_df df) -> (forall c, In c l -> In c (columns df)) ->
  pick df (map (@cname num) l) = l.
Proof.
  intros Hnd. induction l as [|c l IH]; intros Hin; [reflexivity|].
  unfold pick in *. simpl. rewrite filter_name_unique.
  - simpl. f_equal. apply IH. intros c' Hc'. apply Hin. now right.
  - exact Hnd.
  - apply Hin. now left.
Qed.

Lemma filter_names (p : string -> bool) (cols : list column) :
  filter p (map (@cname num) cols) = map (@cname num) (filter (fun c => p (cname c)) cols).
Proof.
  induction cols as [|c cols IH]; [reflexivity|].
  simpl. destruct (p (cname c)); simpl; now rewrite IH.
Qed.

(** With distinct names, the candidates are the columns that are not
    excluded, once each and in the order of [df]. *)
Lemma candidates_distinct (df : DataFrame) (excluded : list string) :
  NoDup (list_df df) -> candidates df excluded = not_excluded excluded df.
Proof.
  intros Hnd. unfold candidates, numeric_colnames, list_df.
  rewrite filter_names. apply pick_names_of; [assumption|].
  intros c Hc. apply filter_In in Hc. tauto.
Qed.

(** With distinct names, [df[names]] has one column per name. *)
Lemma pick_names (df : DataFrame) (names : list string) :
  NoDup (list_df df) -> (forall n, In n names -> In n (list_df df)) ->
  map (@cname num) (pick df names) = names.
Proof.
  intros Hnd. induction names as [|n names IH]; intros Hin; [reflexivity|].
  unfold pick in *. simpl. rewrite map_app, IH.
  - assert (In n (list_df df)) as Hn by (apply Hin; now left).
    unfold list_df in Hn. apply in_map_iff in Hn. destruct Hn as [c [<- Hc]].
    rewrite filter_name_unique by assumption. reflexivity.
  - intros n' Hn'. apply Hin. now right.
Qed.

(** A name ends up in the list when the caller listed it or when it is
    the name of a column that does not hold numbers. *)
Lemma In_extended (df : DataFrame) (excluded : list string) (n : string) :
  In n (extended df excluded) <->
  In n excluded \/
  exists c, In c (columns df) /\ cname c = n /\ is_number c = false.
Proof.
  unfold extended. rewrite in_app_iff, in_map_iff. split.
  - intros [H | [c [Hc Hin]]]; [now left|]. right.
    apply In_non_numeric_block in Hin. exists c. tauto.
  - intros [H | [c [Hc [Hn Hnum]]]]; [now left|].
    destruct (in_dec string_dec n excluded) as [Hex | Hex]; [now left|].
    right. exists c. split; [assumption|].
    apply In_non_numeric_block. subst. tauto.
Qed.

End DistinctNames.

(** ** Properties of every call that returns *)

Section Generic.

Variable num : Type.
Variable of_Z : Z -> num.
Variable scale : list (option num) -> list (option num).

Abbreviation column := (column num).
Abbreviation DataFrame := (DataFrame num).

Lemma normalize_pass_through (df out : DataFrame) (excluded : list string) :
  fst (normalize of_Z scale df excluded) = Ok out ->
  index out = index df /\
  forall n,
    In n excluded \/
    (exists c, In c (columns df) /\ cname c = n /\ is_number c = false) ->
    (exists c, In c (columns out) /\ cname c = n) /\
    (forall c, In c (columns out) -> cname c = n -> In c (columns df)).
Proof.
  intros H. apply normalize_Ok in H.
  destruct H as [Hnames [_ [_ [Hdisj ->]]]]. simpl. split; [reflexivity|].
  intros n Hn. apply In_extended in Hn. split.
  - pose proof (Hnames _ Hn) as Hd. unfold list_df in Hd.
    apply in_map_iff in Hd. destruct Hd as [c [Hc Hin]].
    exists c. split; [|assumption]. apply in_or_app. left.
    apply In_pick. split; [assumption | now rewrite Hc].
  - intros c Hc Hname. apply in_app_or in Hc. destruct Hc as [Hc | Hc].
    + apply In_pick in Hc. tauto.
    + exfalso. apply (Hdisj n Hn). apply in_map_iff in Hc.
      destruct Hc as [c' [<- Hc']]. simpl in Hname. subst n.
      now apply in_map.
Qed.

Lemma normalize_column_order (df out : DataFrame) (excluded : list string) :
  NoDup (list_df df) ->
  fst (normalize of_Z scale df excluded) = Ok out ->
  list_df out =
    excluded
    ++ map (@cname num)
         (filter (fun c => negb (is_number c)) (not_excluded excluded df))
    ++ map (@cname num)
         (filter (fun c => is_number c) (not_excluded excluded df)).
Proof.
  intros Hnd H. apply normalize_Ok in H.
  destruct H as [Hnames [_ [_ [_ ->]]]]. unfold list_df at 1. simpl.
  rewrite map_app, map_map. simpl.
  rewrite pick_names by assumption.
  unfold extended, non_numeric_block, numeric_block.
  rewrite candidates_distinct by assumption.
  rewrite <- app_assoc. f_equal. f_equal; f_equal; apply filter_ext;
    intros c; destruct (is_number c); reflexivity.
Qed.

Lemma normalize_column_set (df out : DataFrame) (excluded : list string) :
  fst (normalize of_Z scale df excluded) = Ok out ->
  forall n, In n (list_df out) <-> In n (list_df df).
Proof.
  intros H. apply normalize_Ok in H.
  destruct H as [Hnames [_ [_ [_ ->]]]]. intros n. unfold list_df. simpl.
  rewrite map_app, in_app_iff, map_map. simpl. rewrite !in_map_iff. split.
  - intros [[c [Hc Hin]] | [c [Hc Hin]]].
    + apply In_pick in Hin. exists c. tauto.
    + apply In_numeric_block in Hin. exists c. tauto.
  - intros [c [Hc Hin]].
    destruct (in_dec string_dec n (extended df excluded)) as [Hex | Hex].
    + left. exists c. split; [assumption|]. apply In_pick. subst. tauto.
    + right. exists c. split; [assumption|]. apply In_numeric_block.
      split; [assumption|]. rewrite In_extended in Hex. split.
      * intros Hn. apply Hex. left. now subst.
      * destruct (is_number c) eqn:E; [reflexivity|].
        exfalso. apply Hex. right. exists c. tauto.
Qed.

(** The row count is kept, whatever the labels are. *)
Lemma normalize_row_count (df out : DataFrame) (excluded : list string) :
  well_formed df ->
  fst (normalize of_Z scale df excluded) = Ok out ->
  nrows out = nrows df /\ well_formed out.
Proof.
  intros Hwf H. apply normalize_Ok in H.
  destruct H as [_ [_ [_ [_ ->]]]]. split; [reflexivity|].
  unfold well_formed in *. simpl. rewrite Forall_forall in *.
  intros c Hc. apply in_app_or in Hc. destruct Hc as [Hc | Hc].
  - apply In_pick in Hc. apply Hwf. tauto.
  - apply in_map_iff in Hc. destruct Hc as [c' [<- _]].
    unfold col_length, reindex, scaled. simpl. apply length_take.
Qed.

(** No numeric candidate: the scaler refuses the empty block. *)
Lemma normalize_empty_block (df : DataFrame) (excluded : list string) :
  (forall c, In c (columns df) -> In (cname c) excluded \/ is_number c = false) ->
  exists e,
    fst (normalize of_Z scale df excluded) = Raise e /\
    ((forall n, In n excluded -> In n (list_df df)) -> e = ValueError).
Proof.
  intros Hall.
  assert (numeric_block df excluded = []) as Hnil.
  { destruct (numeric_block df excluded) as [|c cs] eqn:E; [reflexivity|].
    assert (In c (numeric_block df excluded)) as Hc by (rewrite E; now left).
    apply In_numeric_block in Hc. destruct Hc as [Hc [Hex Hn]].
    destruct (Hall c Hc) as [H | H]; [contradiction | congruence]. }
  rewrite normalize_fst, Hnil.
  destruct (getitem df (extended df excluded)) as [ids|e] eqn:G.
  - exists ValueError. simpl. unfold fit_transform, check_array. simpl.
    destruct (Nat.eqb _ 0); split; reflexivity || (intros; reflexivity).
  - exists e. simpl. split; [reflexivity|]. intros Hpresent.
    rewrite getitem_present in G; [discriminate|].
    intros n Hn. apply In_extended in Hn. destruct Hn as [Hn | [c [Hc [<- _]]]].
    + now apply Hpresent.
    + unfold list_df. now apply in_map.
Qed.

End Generic.

(** ** Columns of the same name *)

Section Returns.

Variable num : Type.

Abbreviation column := (column num).
Abbreviation DataFrame := (DataFrame num).

Lemma same_name_same_column (cols : list column) (a b : column) :
  NoDup (map (@cname num) cols) -> In a cols -> In b cols ->
  cname a = cname b -> a = b.
Proof.
  induction cols as [|c cols IH]; intros Hnd Ha Hb E; [destruct Ha|].
  simpl in Hnd. inversion Hnd as [|x xs Hnotin Hnd']; subst.
  destruct Ha as [-> | Ha], Hb as [-> | Hb].
  - reflexivity.
  - exfalso. apply Hnotin. rewrite E. now apply in_map.
  - exfalso. apply Hnotin. rewrite <- E. now apply in_map.
  - now apply IH.
Qed.

End Returns.

(** ** The four functions are the shared body with a scaler *)

Lemma MinMaxScaler_length (feature_range : Q * Q) (X : list (option Q)) :
  List.length (MinMax.MinMaxScaler feature_range X) = List.length X.
Proof.
  unfold MinMax.MinMaxScaler.
  destruct (MinMax.nanmin (present X)), (MinMax.nanmax (present X));
    try reflexivity.
  apply length_map.
Qed.

Lemma RobustScaler_length (X : list (option Q)) :
  List.length (Robust.RobustScaler X) = List.length X.
Proof.
  unfold Robust.RobustScaler. destruct (present X); [reflexivity|].
  apply length_map.
Qed.

Lemma StandardScaler_length (X : list (option R)) :
  List.length (Standard.StandardScaler X) = List.length X.
Proof.
  unfold Standard.StandardScaler. destruct (present X); [reflexivity|].
  apply length_map.
Qed.

Lemma run_is_normalize (f : func) :
  exists (of_Z : Z -> num_of f) (scale : list (option (num_of f)) -> list (option (num_of f))),
    (forall v, List.length (scale v) = List.length v) /\
    forall df excluded, run f df excluded = normalize of_Z scale df excluded.
Proof.
  destruct f; simpl.
  - exists inject_Z, (MinMax.MinMaxScaler (0, 1)%Q).
    split; [apply MinMaxScaler_length | reflexivity].
  - exists inject_Z, (MinMax.MinMaxScaler (-1, 1)%Q).
    split; [apply MinMaxScaler_length | reflexivity].
  - exists IZR, Standard.StandardScaler.
    split; [apply StandardScaler_length | reflexivity].
  - exists inject_Z, Robust.RobustScaler.
    split; [apply RobustScaler_length | reflexivity].
Qed.

Lemma run_snd (f : func) (df : DataFrame (num_of f)) (excluded : list string) :
  snd (run f df excluded) = extended df excluded.
Proof.
  destruct (run_is_normalize f) as [of_Z [scale [_ E]]].
  rewrite E. apply normalize_snd.
Qed.

Lemma func_eqb_eq (f g : func) : func_eqb f g = true <-> f = g.
Proof. destruct f, g; simpl; split; intros H; congruence. Qed.

Lemma loc_eqb_eq (l l' : loc) : loc_eqb l l' = true <-> l = l'.
Proof.
  destruct l as [f|n], l' as [g|m]; simpl.
  - rewrite func_eqb_eq. split; congruence.
  - split; discriminate.
  - split; discriminate.
  - rewrite Nat.eqb_eq. split; congruence.
Qed.

Lemma update_same (st : store) (l : loc) (v : list string) : update st l v l = v.
Proof.
  unfold update. destruct (loc_eqb l l) eqn:E; [reflexivity|].
  assert (loc_eqb l l = true) by now apply loc_eqb_eq. congruence.
Qed.

Lemma update_other (st : store) (l l' : loc) (v : list string) :
  l' <> l -> update st l v l' = st l'.
Proof.
  intros H. unfold update. destruct (loc_eqb l l') eqn:E; [|reflexivity].
  apply loc_eqb_eq in E. congruence.
Qed.

Lemma call_fst (f : func) (df : DataFrame (num_of f)) (arg : option loc) (st : store) :
  fst (call f df arg st) =
  fst (run f df (st match arg with Some l => l | None => DefaultOf f end)).
Proof. unfold call. destruct (run f df _). reflexivity. Qed.

Lemma call_snd (f : func) (df : DataFrame (num_of f)) (arg : option loc) (st : store) :
  snd (call f df arg st) =
  let l := match arg with Some l => l | None => DefaultOf f end in
  update st l (extended df (st l)).
Proof.
  unfold call. simpl. rewrite <- run_snd. destruct (run f df _). reflexivity.
Qed.

(** ** The scenario dataset *)

Module Scenario.
Local Open Scope string_scope.

Definition numbers {num : Type} (name : string) (v : list num) : column num :=
  mkcol name (NumData (map (@Some num) v)).

Definition objects {num : Type} (name : string) (v : list string) : column num :=
  mkcol name (ObjData (map (@Some string) v)).

(** Columns [id, ts, feat1, feat2], rows (1,"t0",0,10), (2,"t1",5,20),
    (3,"t2",10,30), over the given row labels. *)
Definition dataset (labels : list Z) : DataFrame Q :=
  mkdf labels
    [numbers "id" [1; 2; 3]%Q;
     objects "ts" ["t0"; "t1"; "t2"];
     numbers "feat1" [0; 5; 10]%Q;
     numbers "feat2" [10; 20; 30]%Q].

Definition datasetR (labels : list Z) : DataFrame R :=
  mkdf labels
    [numbers "id" [1; 2; 3]%R;
     objects "ts" ["t0"; "t1"; "t2"];
     numbers "feat1" [0; 5; 10]%R;
     numbers "feat2" [10; 20; 30]%R].

(** Every fraction in lowest terms, so that equal numbers are equal terms. *)
Definition canonical (df : DataFrame Q) : DataFrame Q :=
  mkdf (index df)
    (map (fun c => mkcol (cname c)
                     match cdata c with
                     | NumData v => NumData (map (option_map Qred) v)
                     | ObjData v => ObjData v
                     end)
       (columns df)).

Definition canonical_result (r : result (DataFrame Q)) : result (DataFrame Q) :=
  match r with
  | Ok df => Ok (canonical df)
  | Raise e => Raise e
  end.

(** The numeric cells of the column [name] of a result. *)
Definition cells {num : Type} (name : string) (r : result (DataFrame num))
  : list (list (option num)) :=
  match r with
  | Ok df => map (@values num)
               (filter (fun c => String.eqb (cname c) name) (columns df))
  | Raise _ => []
  end.

End Scenario.

(** ** Excluded columns, column order and the excluded list *)

(** C3. When a call of any of the four functions returns, the result has
    the row labels of the input, and every excluded column, named by the
    caller or reclassified because it holds no numbers, is in the result
    with the input's values at every row: each column of the result that
    carries an excluded name is a column of the input. *)
Theorem excluded_columns_unchanged
    (f : func) (df out : DataFrame (num_of f)) (excluded : list string) :
  fst (run f df excluded) = Ok out ->
  index out = index df /\
  forall n,
    In n excluded \/
    (exists c, In c (columns df) /\ cname c = n /\ is_number c = false) ->
    (exists c, In c (columns out) /\ cname c = n) /\
    (forall c, In c (columns out) -> cname c = n -> In c (columns df)).
Proof.
  destruct (run_is_normalize f) as [of_Z [scale [_ E]]]. rewrite E.
  apply normalize_pass_through.
Qed.

Lemma excluded_columns_unchanged_witness :
  exists out : DataFrame Q,
    fst (zero_one_normalize (Scenario.dataset [0; 1; 2]%Z) ["id"; "ts"]%string) = Ok out /\
    index out = [0; 1; 2]%Z /\
    forall n,
      In n ["id"; "ts"]%string \/
      (exists c, In c (columns (Scenario.dataset [0; 1; 2]%Z)) /\
                 cname c = n /\ is_number c = false) ->
      (exists c, In c (columns out) /\ cname c = n) /\
      (forall c, In c (columns out) -> cname c = n ->
                 In c (columns (Scenario.dataset [0; 1; 2]%Z))).
Proof.
  eexists. split.
  - vm_compute. reflexivity.
  - apply (@excluded_columns_unchanged ZeroOne
             (Scenario.dataset [0; 1; 2]%Z) _ ["id"; "ts"]%string).
    vm_compute. reflexivity.
Defined.

(** Two text columns of the same name: [df[names]] gives every column of
    a name once for each time the name is listed, so the two columns are
    eight in the result, where the order of the claim has them twice. *)
Lemma repeated_column_names_counterexample :
  let df := mkdf [0; 1; 2]%Z
              [Scenario.objects "a" ["p"; "q"; "r"]%string;
               Scenario.objects "a" ["u"; "v"; "w"]%string;
               Scenario.numbers "x" [0; 5; 10]%Q] in
  exists out : DataFrame Q,
    fst (zero_one_normalize df []) = Ok out /\
    list_df df = ["a"; "a"; "x"]%string /\
    list_df out = ["a"; "a"; "a"; "a"; "a"; "a"; "a"; "a"; "x"]%string /\
    list_df out <>
      []
      ++ map (@cname _) (filter (fun c => negb (is_number c)) (not_excluded [] df))
      ++ map (@cname _) (filter (fun c => is_number c) (not_excluded [] df)).
Proof.
  intros df. eexists. split; [|split; [|split]].
  - vm_compute. reflexivity.
  - reflexivity.
  - reflexivity.
  - vm_compute. discriminate.
Qed.

(** C5, amended. When a call of any of the four functions on a dataframe
    with distinct column names returns, the result has the same set of
    column names as the input, and the column names of the result are the
    caller's excluded names in their list order, then the names of the
    reclassified non-numeric columns, then the names of the numeric
    columns, the last two in the order of the input. *)
Theorem output_column_order
    (f : func) (df out : DataFrame (num_of f)) (excluded : list string) :
  NoDup (list_df df) ->
  fst (run f df excluded) = Ok out ->
  (forall n, In n (list_df out) <-> In n (list_df df)) /\
  list_df out =
    excluded
    ++ map (@cname _) (filter (fun c => negb (is_number c)) (not_excluded excluded df))
    ++ map (@cname _) (filter (fun c => is_number c) (not_excluded excluded df)).
Proof.
  destruct (run_is_normalize f) as [of_Z [scale [_ E]]]. rewrite E.
  intros Hnd H. split.
  - now apply normalize_column_set with (of_Z := of_Z) (scale := scale) (excluded := excluded).
  - now apply normalize_column_order with (of_Z := of_Z) (scale := scale).
Qed.

(** The columns in the order feat1, id, ts, feat2, with "id" excluded, come
    back in the order id, ts, feat1, feat2. *)
Lemma output_column_order_witness :
  let df := mkdf [0; 1; 2]%Z
              [Scenario.numbers "feat1" [0; 5; 10]%Q;
               Scenario.numbers "id" [1; 2; 3]%Q;
               Scenario.objects "ts" ["t0"; "t1"; "t2"]%string;
               Scenario.numbers "feat2" [10; 20; 30]%Q] in
  exists out : DataFrame Q,
    fst (robust_standardize df ["id"]%string) = Ok out /\
    list_df df = ["feat1"; "id"; "ts"; "feat2"]%string /\
    (forall n, In n (list_df out) <-> In n (list_df df)) /\
    list_df out = ["id"; "ts"; "feat1"; "feat2"]%string.
Proof.
  intros df. eexists. split; [|split].
  - vm_compute. reflexivity.
  - reflexivity.
  - apply (@output_column_order RobustStandardize df _ ["id"]%string).
    + repeat constructor; simpl; intuition discriminate.
    + vm_compute. reflexivity.
Defined.

(** C6. A call of any of the four functions with a list of the caller's
    leaves that list object holding its former content followed by the
    names of the candidate columns that hold no numbers, whether the call
    returns or raises: the former entries keep their positions, a name is
    appended exactly when it was not in the list and names a non-numeric
    column, with distinct column names the appended names are those
    columns' names in the order of the dataframe, and no other list
    object is touched. *)
Theorem excluded_list_extended_in_place
    (f : func) (df : DataFrame (num_of f)) (l : loc) (st : store) :
  let st' := snd (call f df (Some l) st) in
  let appended := map (@cname _) (non_numeric_block df (st l)) in
  st' l = st l ++ appended /\
  (forall i, (i < List.length (st l))%nat -> nth_error (st' l) i = nth_error (st l) i) /\
  (forall n, In n appended <->
             ~ In n (st l) /\
             exists c, In c (columns df) /\ cname c = n /\ is_number c = false) /\
  (NoDup (list_df df) ->
   appended =
   map (@cname _) (filter (fun c => negb (is_number c)) (not_excluded (st l) df))) /\
  (forall l', l' <> l -> st' l' = st l').
Proof.
  intros st' appended. subst st'. rewrite call_snd. simpl.
  rewrite update_same. fold appended. unfold extended. fold appended.
  split; [reflexivity|]. split; [|split; [|split]].
  - intros i Hi. now apply nth_error_app1.
  - intros n. unfold appended. rewrite in_map_iff. split.
    + intros [c [Hc Hin]]. apply In_non_numeric_block in Hin. subst n.
      split; [tauto|]. exists c. tauto.
    + intros [Hn [c [Hc [Hname Hnum]]]]. exists c. split; [assumption|].
      apply In_non_numeric_block. subst n. tauto.
  - intros Hnd. unfold appended, non_numeric_block.
    rewrite candidates_distinct by assumption. reflexivity.
  - intros l' Hl'. now apply update_other.
Qed.

(** C10. A call that omits [excluded_colnames] works on the default list
    object of the function, and what it appends stays there: after such a
    call on [df1] the default holds its former content followed by the
    names of the non-numeric candidates of [df1]; a later call that omits
    the argument, on any [df2], is a call with that grown list, so the
    appended names are no candidates of [df2]; the defaults of the other
    functions are not touched. *)
Theorem default_list_is_shared
    (f : func) (df1 df2 : DataFrame (num_of f)) (st : store) :
  let st1 := snd (call f df1 None st) in
  let appended := map (@cname _) (non_numeric_block df1 (st (DefaultOf f))) in
  st1 (DefaultOf f) = st (DefaultOf f) ++ appended /\
  fst (call f df2 None st1) = fst (run f df2 (st (DefaultOf f) ++ appended)) /\
  (forall n, In n appended ->
             ~ In n (numeric_colnames df2 (st (DefaultOf f) ++ appended))) /\
  (forall g, g <> f -> st1 (DefaultOf g) = st (DefaultOf g)).
Proof.
  intros st1 appended. subst st1. rewrite call_snd. simpl.
  assert (update st (DefaultOf f) (extended df1 (st (DefaultOf f))) (DefaultOf f)
          = st (DefaultOf f) ++ appended) as Hd by apply update_same.
  split; [exact Hd|]. split; [|split].
  - rewrite call_fst, Hd. reflexivity.
  - intros n Hn Hc. unfold numeric_colnames in Hc. apply filter_In in Hc.
    destruct Hc as [_ Hc]. apply negb_true_iff, mem_false in Hc.
    apply Hc, in_or_app. now right.
  - intros g Hg. apply update_other. congruence.
Qed.

(** The sharing at work: the first call reclassifies the text column "ts"
    of the scenario dataset; the second call, on a dataframe whose "ts"
    holds numbers, leaves that column unscaled, where a call with a fresh
    empty list scales it. *)
Example default_list_leaks :
  let df2 := mkdf [0; 1]%Z
               [Scenario.numbers "ts" [2; 4]%Q; Scenario.numbers "x" [0; 10]%Q] in
  let st0 := initial_store (fun _ => []) in
  let st1 := snd (call ZeroOne (Scenario.dataset [0; 1; 2]%Z) None st0) in
  st1 (DefaultOf ZeroOne) = ["ts"]%string /\
  Scenario.cells "ts" (Scenario.canonical_result (fst (call ZeroOne df2 None st1)))
  = [[Some 2; Some 4]]%Q /\
  Scenario.cells "ts" (Scenario.canonical_result (fst (zero_one_normalize df2 [])))
  = [[Some 0; Some 1]]%Q.
Proof. vm_compute. repeat split. Qed.

(** ** The empty numeric block *)

(** A dataframe whose only column outside the excluded list holds text:
    the call raises, it does not return the excluded block. *)
Lemma no_numeric_block_counterexample :
  let df := mkdf [0; 1; 2]%Z
              [Scenario.numbers "id" [1; 2; 3]%Q;
               Scenario.objects "ts" ["t0"; "t1"; "t2"]%string] in
  fst (zero_one_normalize df ["id"]%string) = Raise ValueError /\
  fst (negativeone_one_normalize df ["id"]%string) = Raise ValueError /\
  fst (robust_standardize df ["id"]%string) = Raise ValueError /\
  ~ (exists out, fst (zero_one_normalize df ["id"]%string) = Ok out).
Proof.
  vm_compute. repeat split. intros [out H]. discriminate.
Qed.

(** C7, amended. When every column of the dataframe is excluded or holds
    no numbers, a call of any of the four functions raises and returns no
    dataframe: the scaler refuses a block without features with a
    [ValueError], unless an excluded name is no column of the dataframe,
    which raises first. *)
Theorem no_numeric_block_raises
    (f : func) (df : DataFrame (num_of f)) (excluded : list string) :
  (forall c, In c (columns df) -> In (cname c) excluded \/ is_number c = false) ->
  exists e,
    fst (run f df excluded) = Raise e /\
    ((forall n, In n excluded -> In n (list_df df)) -> e = ValueError).
Proof.
  destruct (run_is_normalize f) as [of_Z [scale [_ E]]]. rewrite E.
  apply normalize_empty_block.
Qed.

Lemma no_numeric_block_raises_witness :
  exists e,
    fst (standardize
           (mkdf [0; 1; 2]%Z
              [Scenario.numbers "id" [1; 2; 3]%R;
               Scenario.objects "ts" ["t0"; "t1"; "t2"]%string])
           ["id"]%string) = Raise e /\
    ((forall n, In n ["id"]%string -> In n ["id"; "ts"]%string) -> e = ValueError).
Proof.
  apply (@no_numeric_block_raises Standardize
           (mkdf [0; 1; 2]%Z
              [Scenario.numbers "id" [1; 2; 3]%R;
               Scenario.objects "ts" ["t0"; "t1"; "t2"]%string])
           ["id"]%string).
  intros c Hc. simpl in Hc.
  destruct Hc as [<- | [<- | []]]; [left; simpl; now left | right; reflexivity].
Defined.

(** ** The min-max scaler *)

Section MinMaxFacts.
Local Open Scope Q_scope.

Lemma fold_Qmin_le_init (l : list Q) (a : Q) : fold_left Qmin l a <= a.
Proof.
  revert a. induction l as [|y l IH]; intros a; simpl; [apply Qle_refl|].
  eapply Qle_trans; [apply IH | apply Q.le_min_l].
Qed.

Lemma fold_Qmin_le_elem (l : list Q) (a x : Q) : In x l -> fold_left Qmin l a <= x.
Proof.
  revert a. induction l as [|y l IH]; intros a Hin; [destruct Hin|].
  simpl. destruct Hin as [-> | Hin].
  - eapply Qle_trans; [apply fold_Qmin_le_init | apply Q.le_min_r].
  - now apply IH.
Qed.

Lemma fold_Qmax_ge_init (l : list Q) (a : Q) : a <= fold_left Qmax l a.
Proof.
  revert a. induction l as [|y l IH]; intros a; simpl; [apply Qle_refl|].
  eapply Qle_trans; [apply Q.le_max_l | apply IH].
Qed.

Lemma fold_Qmax_ge_elem (l : list Q) (a x : Q) : In x l -> x <= fold_left Qmax l a.
Proof.
  revert a. induction l as [|y l IH]; intros a Hin; [destruct Hin|].
  simpl. destruct Hin as [-> | Hin].
  - eapply Qle_trans; [apply Q.le_max_r | apply fold_Qmax_ge_init].
  - now apply IH.
Qed.

Lemma nanmin_le (v : list Q) (mn x : Q) :
  MinMax.nanmin v = Some mn -> In x v -> mn <= x.
Proof.
  destruct v as [|a l]; [discriminate|]. simpl. intros H Hin.
  injection H as <-. destruct Hin as [-> | Hin].
  - apply fold_Qmin_le_init.
  - now apply fold_Qmin_le_elem.
Qed.

Lemma nanmax_ge (v : list Q) (mx x : Q) :
  MinMax.nanmax v = Some mx -> In x v -> x <= mx.
Proof.
  destruct v as [|a l]; [discriminate|]. simpl. intros H Hin.
  injection H as <-. destruct Hin as [-> | Hin].
  - apply fold_Qmax_ge_init.
  - now apply fold_Qmax_ge_elem.
Qed.

Lemma In_present {A : Type} (v : list (option A)) (x : A) :
  In x (present v) <-> In (Some x) v.
Proof.
  unfold present. rewrite in_flat_map. split.
  - intros [[y|] [Hin Hx]]; simpl in Hx; [|destruct Hx].
    destruct Hx as [-> | []]. assumption.
  - intros H. exists (Some x). split; [assumption | now left].
Qed.

(** What the scaler does to a feature whose maximum is above its
    minimum: [lo + (hi - lo) * (x - min) / (max - min)] at every value,
    and a missing value stays missing. *)
Lemma MinMaxScaler_cell (lo hi mn mx : Q) (X : list (option Q)) (i : nat) :
  MinMax.nanmin (present X) = Some mn ->
  MinMax.nanmax (present X) = Some mx ->
  mn < mx ->
  match nth_error X i with
  | Some (Some x) =>
      exists y, nth_error (MinMax.MinMaxScaler (lo, hi) X) i = Some (Some y) /\
                y == lo + (hi - lo) * ((x - mn) / (mx - mn))
  | Some None => nth_error (MinMax.MinMaxScaler (lo, hi) X) i = Some None
  | None => nth_error (MinMax.MinMaxScaler (lo, hi) X) i = None
  end.
Proof.
  intros Hmin Hmax Hlt. unfold MinMax.MinMaxScaler. rewrite Hmin, Hmax.
  rewrite nth_error_map. simpl fst. simpl snd.
  unfold MinMax.handle_zeros_in_scale.
  destruct (Qeq_bool (mx - mn) 0) eqn:E.
  { apply Qeq_bool_eq in E. exfalso. Lqa.lra. }
  destruct (nth_error X i) as [[x|]|]; simpl; try reflexivity.
  eexists. split; [reflexivity|]. field. Lqa.lra.
Qed.

(** The range property of [zero_one_normalize] on one feature. *)
Lemma zero_one_feature (mn mx : Q) (X : list (option Q)) (i : nat) (x : Q) :
  MinMax.nanmin (present X) = Some mn ->
  MinMax.nanmax (present X) = Some mx ->
  mn < mx ->
  nth_error X i = Some (Some x) ->
  exists y, nth_error (MinMax.MinMaxScaler (0, 1) X) i = Some (Some y) /\
            y == (x - mn) / (mx - mn) /\ 0 <= y <= 1 /\
            (x == mn -> y == 0) /\ (x == mx -> y == 1).
Proof.
  intros Hmin Hmax Hlt Hx.
  pose proof (MinMaxScaler_cell 0 1 X i Hmin Hmax Hlt) as H. rewrite Hx in H.
  destruct H as [y [Hy Ey]]. exists y. split; [assumption|].
  assert (y == (x - mn) / (mx - mn)) as Ey'.
  { rewrite Ey. field. Lqa.lra. }
  assert (In x (present X)) as Hin.
  { apply In_present. eapply nth_error_In. eassumption. }
  pose proof (@nanmin_le _ _ _ Hmin Hin). pose proof (@nanmax_ge _ _ _ Hmax Hin).
  split; [assumption|]. rewrite Ey'. split; [|split].
  - split; [apply Qle_shift_div_l | apply Qle_shift_div_r]; Lqa.lra.
  - intros ->. field. Lqa.lra.
  - intros ->. field. Lqa.lra.
Qed.

(** The range property of [negativeone_one_normalize] on one feature. *)
Lemma negativeone_one_feature (mn mx : Q) (X : list (option Q)) (i : nat) (x : Q) :
  MinMax.nanmin (present X) = Some mn ->
  MinMax.nanmax (present X) = Some mx ->
  mn < mx ->
  nth_error X i = Some (Some x) ->
  exists y, nth_error (MinMax.MinMaxScaler (-1, 1) X) i = Some (Some y) /\
            y == 2 * (x - mn) / (mx - mn) - 1 /\ -1 <= y <= 1 /\
            (x == mn -> y == -1) /\ (x == mx -> y == 1).
Proof.
  intros Hmin Hmax Hlt Hx.
  pose proof (MinMaxScaler_cell (-1) 1 X i Hmin Hmax Hlt) as H. rewrite Hx in H.
  destruct H as [y [Hy Ey]]. exists y. split; [assumption|].
  assert (y == 2 * (x - mn) / (mx - mn) - 1) as Ey'.
  { rewrite Ey. field. Lqa.lra. }
  assert (In x (present X)) as Hin.
  { apply In_present. eapply nth_error_In. eassumption. }
  pose proof (@nanmin_le _ _ _ Hmin Hin). pose proof (@nanmax_ge _ _ _ Hmax Hin).
  split; [assumption|]. rewrite Ey'. split; [|split].
  - assert (0 <= 2 * (x - mn) / (mx - mn) <= 2) as [H1 H2].
    { split; [apply Qle_shift_div_l | apply Qle_shift_div_r]; Lqa.lra. }
    Lqa.lra.
  - intros ->. field. Lqa.lra.
  - intros ->. field. Lqa.lra.
Qed.

(** The formulas of the two docstrings are the scaler's. *)
Lemma docstring_formulas (mn mx x : Q) :
  mn < mx ->
  let range := mx - mn in
  let scale := 2 / (mx - mn) in
  0 + (1 - 0) * ((x - mn) / (mx - mn)) == (x - mn) / range /\
  -1 + (1 - -1) * ((x - mn) / (mx - mn)) == scale * x - 1 - mn * scale.
Proof. intros H. simpl. split; field; Lqa.lra. Qed.

End MinMaxFacts.

(** Over the default index, [zero_one_normalize] returns the excluded
    block followed by the numeric columns, each with the min-max scaler
    applied row for row. *)
Lemma zero_one_normalize_positional
    (df out : DataFrame Q) (excluded : list string) :
  well_formed df ->
  index df = RangeIndex (nrows df) ->
  fst (zero_one_normalize df excluded) = Ok out ->
  out = mkdf (index df)
          (pick df (extended df excluded) ++
           map (scaled (MinMax.MinMaxScaler (0, 1)%Q)) (numeric_block df excluded)).
Proof.
  apply normalize_positional. apply MinMaxScaler_length.
Qed.

Lemma negativeone_one_normalize_positional
    (df out : DataFrame Q) (excluded : list string) :
  well_formed df ->
  index df = RangeIndex (nrows df) ->
  fst (negativeone_one_normalize df excluded) = Ok out ->
  out = mkdf (index df)
          (pick df (extended df excluded) ++
           map (scaled (MinMax.MinMaxScaler (-1, 1)%Q)) (numeric_block df excluded)).
Proof.
  apply normalize_positional. apply MinMaxScaler_length.
Qed.

(** The scenario of the specification, over the default index. *)
Example zero_one_scenario :
  Scenario.canonical_result
    (fst (zero_one_normalize (Scenario.dataset [0; 1; 2]%Z) ["id"; "ts"]%string))
  = Ok (mkdf [0; 1; 2]%Z
          [Scenario.numbers "id" [1; 2; 3]%Q;
           Scenario.objects "ts" ["t0"; "t1"; "t2"]%string;
           Scenario.numbers "feat1" [0; 1 # 2; 1]%Q;
           Scenario.numbers "feat2" [0; 1 # 2; 1]%Q]).
Proof. vm_compute. reflexivity. Qed.

(** The range property of [zero_one_normalize], over the default index
    and in exact arithmetic: every numeric column whose maximum is above
    its minimum is in the result with [(x - min) / (max - min)] at the row
    of [x]. *)
Lemma zero_one_range_default_index
    (df out : DataFrame Q) (excluded : list string) (c : column Q) (mn mx : Q) :
  well_formed df ->
  index df = RangeIndex (nrows df) ->
  fst (zero_one_normalize df excluded) = Ok out ->
  In c (numeric_block df excluded) ->
  MinMax.nanmin (present (values c)) = Some mn ->
  MinMax.nanmax (present (values c)) = Some mx ->
  (mn < mx)%Q ->
  exists c', In c' (columns out) /\ cname c' = cname c /\
    forall i x, nth_error (values c) i = Some (Some x) ->
      exists y, nth_error (values c') i = Some (Some y) /\
                (y == (x - mn) / (mx - mn) /\ 0 <= y <= 1 /\
                 (x == mn -> y == 0) /\ (x == mx -> y == 1))%Q.
Proof.
  intros Hwf Hidx H Hc Hmin Hmax Hlt.
  apply zero_one_normalize_positional in H; [|assumption|assumption]. subst out.
  exists (scaled (MinMax.MinMaxScaler (0, 1)%Q) c). simpl. split; [|split].
  - apply in_or_app. right. now apply in_map.
  - reflexivity.
  - intros i x Hx. unfold values at 1. simpl.
    now apply zero_one_feature.
Qed.

(** The same for [negativeone_one_normalize], in exact arithmetic. *)
Lemma negativeone_one_range_default_index
    (df out : DataFrame Q) (excluded : list string) (c : column Q) (mn mx : Q) :
  well_formed df ->
  index df = RangeIndex (nrows df) ->
  fst (negativeone_one_normalize df excluded) = Ok out ->
  In c (numeric_block df excluded) ->
  MinMax.nanmin (present (values c)) = Some mn ->
  MinMax.nanmax (present (values c)) = Some mx ->
  (mn < mx)%Q ->
  exists c', In c' (columns out) /\ cname c' = cname c /\
    forall i x, nth_error (values c) i = Some (Some x) ->
      exists y, nth_error (values c') i = Some (Some y) /\
                (y == 2 * (x - mn) / (mx - mn) - 1 /\ -1 <= y <= 1 /\
                 (x == mn -> y == -1) /\ (x == mx -> y == 1))%Q.
Proof.
  intros Hwf Hidx H Hc Hmin Hmax Hlt.
  apply negativeone_one_normalize_positional in H; [|assumption|assumption].
  subst out.
  exists (scaled (MinMax.MinMaxScaler (-1, 1)%Q) c). simpl. split; [|split].
  - apply in_or_app. right. now apply in_map.
  - reflexivity.
  - intros i x Hx. unfold values at 1. simpl.
    now apply negativeone_one_feature.
Qed.

(** ** Row labels that are not 0, 1, ..., n-1

    [pd.DataFrame(res_ndarray, ...)] gives the scaled block the labels
    0 .. n-1; the two calls of [reset_index] return fresh frames that the
    source drops, so the excluded block keeps the labels of the input and
    the join matches labels, not positions. *)

(** C1, at a dataframe labelled from 1. On the scenario dataset with row
    labels 1, 2, 3 and [excluded_colnames = ["id", "ts"]],
    [zero_one_normalize] returns feat1 = feat2 = [1/2, 1, NaN]: the
    minimum, at the first row, becomes 1/2 and not 0, no value becomes 0,
    and the maximum, at the last row, becomes a missing value. *)
Theorem zero_one_normalize_labels_from_one :
  Scenario.canonical_result
    (fst (zero_one_normalize (Scenario.dataset [1; 2; 3]%Z) ["id"; "ts"]%string))
  = Ok (mkdf [1; 2; 3]%Z
          [Scenario.numbers "id" [1; 2; 3]%Q;
           Scenario.objects "ts" ["t0"; "t1"; "t2"]%string;
           mkcol "feat1" (NumData [Some (1 # 2); Some 1; None]%Q);
           mkcol "feat2" (NumData [Some (1 # 2); Some 1; None]%Q)]).
Proof. vm_compute. reflexivity. Qed.

(** C8, at a dataframe labelled from 1. On the scenario dataset with row
    labels 1, 2, 3 and [excluded_colnames = ["id", "ts"]],
    [negativeone_one_normalize] returns feat1 = feat2 = [0, 1, NaN]: the
    minimum, at the first row, becomes 0 and not -1, no value becomes -1,
    and the maximum, at the last row, becomes a missing value. *)
Theorem negativeone_one_normalize_labels_from_one :
  Scenario.canonical_result
    (fst (negativeone_one_normalize (Scenario.dataset [1; 2; 3]%Z) ["id"; "ts"]%string))
  = Ok (mkdf [1; 2; 3]%Z
          [Scenario.numbers "id" [1; 2; 3]%Q;
           Scenario.objects "ts" ["t0"; "t1"; "t2"]%string;
           mkcol "feat1" (NumData [Some 0; Some 1; None]%Q);
           mkcol "feat2" (NumData [Some 0; Some 1; None]%Q)]).
Proof. vm_compute. reflexivity. Qed.

(** C4, at a shuffled dataframe. On the scenario dataset with its rows
    labelled 2, 0, 1, each of the three rational-valued functions returns
    three rows whose excluded values are those of the input rows, but the
    scaled values of row i are those of the input row at position
    label(i): with [zero_one_normalize], feat1 = [0, 5, 10] comes back as
    [1, 0, 1/2], where the row-by-row transform is [0, 1/2, 1]. *)
Theorem rows_joined_by_label_not_position :
  let df := Scenario.dataset [2; 0; 1]%Z in
  Scenario.canonical_result (fst (zero_one_normalize df ["id"; "ts"]%string))
  = Ok (mkdf [2; 0; 1]%Z
          [Scenario.numbers "id" [1; 2; 3]%Q;
           Scenario.objects "ts" ["t0"; "t1"; "t2"]%string;
           Scenario.numbers "feat1" [1; 0; 1 # 2]%Q;
           Scenario.numbers "feat2" [1; 0; 1 # 2]%Q]) /\
  Scenario.cells "feat1"
    (Scenario.canonical_result (fst (negativeone_one_normalize df ["id"; "ts"]%string)))
  = [[Some 1; Some (-1); Some 0]]%Q /\
  Scenario.cells "feat1"
    (Scenario.canonical_result (fst (robust_standardize df ["id"; "ts"]%string)))
  = [[Some 1; Some (-1); Some 0]]%Q /\
  map (option_map Qred) (MinMax.MinMaxScaler (0, 1)%Q [Some 0; Some 5; Some 10]%Q)
  = [Some 0; Some (1 # 2); Some 1]%Q.
Proof. vm_compute. repeat split. Qed.

(** ** The standard scaler *)

Section StandardFacts.
Local Open Scope R_scope.

Lemma present_map {A B : Type} (g : A -> B) (X : list (option A)) :
  present (map (option_map g) X) = map g (present X).
Proof.
  induction X as [|[x|] X IH]; simpl; [reflexivity| |exact IH].
  unfold present in *. simpl. now rewrite IH.
Qed.

Lemma sum_centred (u s : R) (v : list R) :
  Standard.sum (map (fun x => (x - u) / s) v) =
  (Standard.sum v - INR (List.length v) * u) / s.
Proof.
  induction v as [|x v IH].
  - simpl. unfold Rdiv. ring.
  - change (List.length (x :: v)) with (S (List.length v)).
    rewrite S_INR. simpl. rewrite IH. unfold Rdiv. ring.
Qed.

Lemma sum_squares_centred (u s : R) (v : list R) :
  s <> 0 ->
  Standard.sum (map (fun y => (y - 0) * (y - 0)) (map (fun x => (x - u) / s) v)) =
  Standard.sum (map (fun x => (x - u) * (x - u)) v) / (s * s).
Proof.
  intros Hs. induction v as [|x v IH].
  - simpl. unfold Rdiv. ring.
  - simpl. rewrite IH. field. assumption.
Qed.

Lemma INR_length_nonzero {A : Type} (v : list A) : v <> [] -> INR (List.length v) <> 0.
Proof.
  intros H. destruct v as [|x v]; [congruence|].
  apply not_0_INR. discriminate.
Qed.

(** The moments of a feature with a non-zero standard deviation, after
    the scaler: mean 0, population standard deviation 1. *)
Lemma StandardScaler_moments (X : list (option R)) :
  Standard.std (present X) <> 0 ->
  Standard.mean (present (Standard.StandardScaler X)) = 0 /\
  Standard.std (present (Standard.StandardScaler X)) = 1.
Proof.
  intros Hstd. unfold Standard.StandardScaler.
  destruct (present X) as [|x0 v0] eqn:Hv.
  { exfalso. apply Hstd. unfold Standard.std, Standard.var. simpl.
    unfold Rdiv. rewrite Rmult_0_l. apply sqrt_0. }
  rewrite <- Hv in *. rewrite present_map.
  set (v := present X) in *.
  assert (v <> []) as Hne by (rewrite Hv; discriminate).
  pose proof (INR_length_nonzero Hne) as Hn.
  unfold Standard.handle_zeros_in_scale.
  destruct (Req_dec_T (Standard.std v) 0) as [E | _]; [contradiction|].
  set (s := Standard.std v) in *. set (u := Standard.mean v).
  assert (Standard.mean (map (fun x => (x - u) / s) v) = 0) as Hmean.
  { unfold Standard.mean at 1. rewrite sum_centred, length_map.
    unfold u, Standard.mean. field. split; assumption. }
  split; [exact Hmean|].
  unfold Standard.std, Standard.var. rewrite Hmean, length_map.
  rewrite sum_squares_centred by assumption.
  assert (s * s = Standard.var v) as Hss.
  { unfold s, Standard.std. apply sqrt_sqrt.
    destruct (Rle_or_lt 0 (Standard.var v)) as [H | H]; [assumption|].
    exfalso. apply Hstd. unfold Standard.std. fold v.
    apply sqrt_neg_0. Lra.lra. }
  replace (Standard.sum (map (fun x => (x - u) * (x - u)) v) / (s * s) /
           INR (List.length v))
    with (Standard.var v / (s * s)).
  - rewrite Hss. unfold Rdiv. rewrite Rinv_r; [apply sqrt_1|].
    rewrite <- Hss. intros H0. apply Rmult_integral in H0. tauto.
  - unfold Standard.var. fold u. field. repeat split; assumption.
Qed.

(** A constant feature: the guard replaces the zero deviation by 1, and
    every value becomes 0. *)
Lemma StandardScaler_constant (x : R) (n : nat) :
  Standard.StandardScaler (repeat (Some x) (S n)) = repeat (Some 0) (S n)
  /\ Standard.std (repeat 0 (S n)) = 0.
Proof.
  assert (forall m, present (repeat (Some x) m) = repeat x m) as Hp.
  { induction m as [|m IH]; [reflexivity|]. simpl. unfold present in *. simpl.
    now rewrite IH. }
  assert (forall m y, Standard.sum (repeat y m) = INR m * y) as Hsum.
  { induction m as [|m IH]; intros y.
    - simpl. ring.
    - rewrite S_INR. simpl. rewrite IH. ring. }
  assert (forall y, Standard.mean (repeat y (S n)) = y) as Hmean.
  { intros y. unfold Standard.mean. rewrite Hsum, repeat_length. field.
    apply not_0_INR. discriminate. }
  assert (forall y, Standard.std (repeat y (S n)) = 0) as Hstd.
  { intros y. unfold Standard.std, Standard.var. rewrite Hmean.
    assert (forall m, map (fun z => (z - y) * (z - y)) (repeat y m) = repeat 0 m) as Hz.
    { induction m as [|m IH]; [reflexivity|]. simpl. rewrite IH. f_equal. ring. }
    rewrite Hz, Hsum, Rmult_0_r. unfold Rdiv. rewrite Rmult_0_l. apply sqrt_0. }
  split; [|apply Hstd].
  unfold Standard.StandardScaler. rewrite Hp.
  change (repeat x (S n)) with (x :: repeat x n) at 1.
  cbv beta iota. rewrite Hmean, Hstd.
  unfold Standard.handle_zeros_in_scale.
  destruct (Req_dec_T 0 0) as [_ | H]; [|congruence].
  assert (forall m, map (option_map (fun z => (z - x) / 1)) (repeat (Some x) m)
                    = repeat (Some 0) m) as Hm.
  { induction m as [|m IH]; [reflexivity|]. simpl. rewrite IH. do 2 f_equal. field. }
  apply Hm.
Qed.

End StandardFacts.

Section StandardScenario.
Local Open Scope R_scope.

Lemma sum_nonneg_zero (w : list R) :
  (forall z, In z w -> 0 <= z) -> Standard.sum w = 0 -> forall z, In z w -> z = 0.
Proof.
  induction w as [|a w IH]; intros Hpos Hsum z Hz; [destruct Hz|].
  simpl in Hsum.
  assert (0 <= a) as Ha by (apply Hpos; now left).
  assert (0 <= Standard.sum w) as Hw.
  { clear - Hpos. induction w as [|b w IH]; simpl; [Lra.lra|].
    assert (0 <= b) by (apply Hpos; right; now left).
    assert (0 <= Standard.sum w).
    { apply IH. intros z [-> | Hz]; apply Hpos; [now left | right; now right]. }
    Lra.lra. }
  destruct Hz as [<- | Hz]; [Lra.lra|].
  apply IH; [|Lra.lra|assumption].
  intros y Hy. apply Hpos. now right.
Qed.

(** A feature with two different values has a non-zero deviation. *)
Lemma std_nonzero_of_distinct (v : list R) (x y : R) :
  In x v -> In y v -> x <> y -> Standard.std v <> 0.
Proof.
  intros Hx Hy Hxy Hstd.
  set (u := Standard.mean v).
  set (w := map (fun z => (z - u) * (z - u)) v).
  assert (forall z, In z w -> 0 <= z) as Hpos.
  { intros z Hz. unfold w in Hz. apply in_map_iff in Hz.
    destruct Hz as [t [<- _]]. apply Rle_0_sqr. }
  assert (INR (List.length v) <> 0) as Hn.
  { apply INR_length_nonzero. intros ->. destruct Hx. }
  assert (0 < INR (List.length v)) as Hn'.
  { pose proof (pos_INR (List.length v)). Lra.lra. }
  assert (0 <= Standard.sum w) as Hw.
  { clear - Hpos. induction w as [|b w IH]; simpl; [Lra.lra|].
    assert (0 <= b) by (apply Hpos; now left).
    assert (0 <= Standard.sum w) by (apply IH; intros z Hz; apply Hpos; now right).
    Lra.lra. }
  assert (Standard.var v = 0) as Hvar.
  { apply sqrt_eq_0; [|exact Hstd]. unfold Standard.var. fold u. fold w.
    apply Rmult_le_pos; [assumption|].
    apply Rlt_le, Rinv_0_lt_compat. assumption. }
  assert (Standard.sum w = 0) as Hsum.
  { unfold Standard.var in Hvar. fold u in Hvar. fold w in Hvar.
    unfold Rdiv in Hvar. apply Rmult_integral in Hvar.
    destruct Hvar as [H | H]; [assumption|].
    exfalso. apply (Rinv_neq_0_compat _ Hn). assumption. }
  assert (forall z, In z v -> z = u) as Hall.
  { intros z Hz.
    assert ((z - u) * (z - u) = 0) as Hsq.
    { apply (@sum_nonneg_zero w Hpos Hsum). unfold w.
      apply in_map_iff. exists z. split; [reflexivity | assumption]. }
    apply Rmult_integral in Hsq. destruct Hsq; Lra.lra. }
  apply Hxy. rewrite (Hall x Hx), (Hall y Hy). reflexivity.
Qed.

(** Three equally spaced values become [-t, 0, t] with [t * t = 3/2]. *)
Lemma StandardScaler_equally_spaced (x1 x2 x3 d : R) :
  0 < d -> x2 = x1 + d -> x3 = x2 + d ->
  exists t, 0 < t /\ t * t = 3 / 2 /\
    Standard.StandardScaler [Some x1; Some x2; Some x3] = [Some (- t); Some 0; Some t].
Proof.
  intros Hd -> ->. unfold Standard.StandardScaler. simpl present.
  cbv beta iota.
  set (v := [x1; x1 + d; x1 + d + d]).
  assert (Standard.mean v = x1 + d) as Hmean.
  { unfold Standard.mean, v. simpl. field. }
  assert (Standard.var v = 2 * d * d / 3) as Hvar.
  { unfold Standard.var. rewrite Hmean. unfold v. simpl. field. }
  assert (0 < Standard.std v) as Hs.
  { unfold Standard.std. apply sqrt_lt_R0. rewrite Hvar. Lra.nra. }
  assert (Standard.std v * Standard.std v = 2 * d * d / 3) as Hss.
  { unfold Standard.std. rewrite sqrt_sqrt; [exact Hvar|]. rewrite Hvar. Lra.nra. }
  unfold Standard.handle_zeros_in_scale.
  destruct (Req_dec_T (Standard.std v) 0) as [E | _]; [Lra.lra|].
  rewrite Hmean. set (s := Standard.std v) in *.
  exists (d / s). split; [|split].
  - apply Rdiv_lt_0_compat; assumption.
  - replace (d / s * (d / s)) with (d * d / (s * s)) by (field; Lra.lra).
    rewrite Hss. field. Lra.lra.
  - simpl. repeat f_equal; field; Lra.lra.
Qed.

Lemma root_three_halves (t : R) :
  0 < t -> t * t = 3 / 2 -> Rabs (t - 12247 / 10000) < 1 / 10000.
Proof.
  intros Ht Hsq. apply Rabs_def1.
  - destruct (Rlt_or_le t (12248 / 10000)) as [H | H]; [Lra.lra|].
    exfalso. Lra.nra.
  - destruct (Rlt_or_le (12246 / 10000) t) as [H | H]; [Lra.lra|].
    exfalso. Lra.nra.
Qed.

End StandardScenario.

(** ** The moments after [standardize] *)

(** A constant column comes back as zeros: mean 0, but deviation 0. *)
Lemma standardize_constant_column_counterexample :
  let df := mkdf [0; 1; 2]%Z [Scenario.numbers "feat" [5; 5; 5]%R] in
  exists out,
    fst (standardize df []) = Ok out /\
    Scenario.cells "feat" (Ok out) = [[Some 0; Some 0; Some 0]]%R /\
    Standard.std [0; 0; 0]%R = 0%R /\
    Standard.std [0; 0; 0]%R <> 1%R.
Proof.
  intros df.
  pose proof (StandardScaler_constant 5 2) as [Hscaled Hstd].
  simpl repeat in Hscaled, Hstd.
  eexists. split; [|split; [|split]].
  - unfold standardize, df. cbv -[Standard.StandardScaler IZR]. reflexivity.
  - cbv -[Standard.StandardScaler IZR]. rewrite Hscaled. reflexivity.
  - exact Hstd.
  - rewrite Hstd. Lra.lra.
Qed.

(** ** Columns that are close to the standardized column

    The scaler of scikit-learn computes in float64, so what it returns is
    not the exact [(x - mean) / std] but a value close to it.  The moments
    are therefore stated for ANY scaler, under the premise that its values
    on the column at hand are within a tolerance [eps] of the exact ones;
    [Standard.StandardScaler] is the scaler with tolerance 0. *)

Section Tolerance.
Local Open Scope R_scope.

(** Two cells are close: both missing, or both present and within [eps]
    of each other. *)
Definition close (eps : R) (a b : option R) : Prop :=
  match a, b with
  | Some y, Some z => Rabs (y - z) <= eps
  | None, None => True
  | _, _ => False
  end.

Lemma Rabs_bounds (a b : R) : Rabs a <= b -> - b <= a <= b.
Proof.
  unfold Rabs. destruct (Rcase_abs a); intros H; Lra.lra.
Qed.

Lemma present_close (eps : R) (Y Z : list (option R)) :
  Forall2 (close eps) Y Z ->
  Forall2 (fun y z => Rabs (y - z) <= eps) (present Y) (present Z).
Proof.
  induction 1 as [|a b Y Z Hab _ IH]; [constructor|].
  destruct a as [y|], b as [z|]; simpl in Hab; try contradiction.
  - unfold present in *. simpl. constructor; assumption.
  - exact IH.
Qed.

Lemma sum_close (eps : R) (ys zs : list R) :
  Forall2 (fun y z => Rabs (y - z) <= eps) ys zs ->
  Rabs (Standard.sum ys - Standard.sum zs) <= INR (List.length zs) * eps.
Proof.
  induction 1 as [|y z ys zs Hyz _ IH].
  - simpl. rewrite Rminus_diag, Rabs_R0. Lra.lra.
  - change (List.length (z :: zs)) with (S (List.length zs)). rewrite S_INR. simpl.
    replace (y + Standard.sum ys - (z + Standard.sum zs))
      with ((y - z) + (Standard.sum ys - Standard.sum zs)) by ring.
    eapply Rle_trans; [apply Rabs_triang|]. Lra.lra.
Qed.

Lemma square_close (eps m y z : R) :
  0 <= eps -> Rabs m <= eps -> Rabs (y - z) <= eps ->
  (y - m) * (y - m) <= (1 + 2 * eps) * ((z - 0) * (z - 0)) + (2 * eps + 4 * eps * eps) /\
  (1 - 2 * eps) * ((z - 0) * (z - 0)) - 2 * eps <= (y - m) * (y - m).
Proof.
  intros He Hm Hyz.
  apply Rabs_bounds in Hm. apply Rabs_bounds in Hyz.
  assert (2 * z <= 1 + z * z) as Hz1.
  { pose proof (Rle_0_sqr (z - 1)) as H. unfold Rsqr in H. Lra.lra. }
  assert (- (2 * z) <= 1 + z * z) as Hz2.
  { pose proof (Rle_0_sqr (z + 1)) as H. unfold Rsqr in H. Lra.lra. }
  assert (exists e, y - m = z + e /\ - (2 * eps) <= e <= 2 * eps) as [e [-> [He1 He2]]].
  { exists (y - z - m). split; [ring | Lra.lra]. }
  replace (z - 0) with z by ring.
  assert (0 <= (2 * eps - e) * (2 * eps + e)) as Hprod
      by (apply Rmult_le_pos; Lra.lra).
  assert (2 * z * e <= 2 * eps * (1 + z * z) /\
          - (2 * eps * (1 + z * z)) <= 2 * z * e) as [Hup Hlo].
  { assert (2 * eps * (2 * z) <= 2 * eps * (1 + z * z)) as A1
        by (apply Rmult_le_compat_l; Lra.lra).
    assert (2 * eps * (- (2 * z)) <= 2 * eps * (1 + z * z)) as A2
        by (apply Rmult_le_compat_l; Lra.lra).
    destruct (Rle_or_lt 0 z) as [Hz | Hz].
    - assert (0 <= z * (2 * eps - e)) as B1 by (apply Rmult_le_pos; Lra.lra).
      assert (0 <= z * (2 * eps + e)) as B2 by (apply Rmult_le_pos; Lra.lra).
      split; Lra.lra.
    - assert (0 <= (- z) * (2 * eps - e)) as B1 by (apply Rmult_le_pos; Lra.lra).
      assert (0 <= (- z) * (2 * eps + e)) as B2 by (apply Rmult_le_pos; Lra.lra).
      split; Lra.lra. }
  pose proof (Rle_0_sqr e) as Hee0. unfold Rsqr in Hee0.
  split; Lra.lra.
Qed.

Lemma squares_close (eps m : R) (ys zs : list R) :
  0 <= eps -> Rabs m <= eps ->
  Forall2 (fun y z => Rabs (y - z) <= eps) ys zs ->
  let sy := Standard.sum (map (fun y => (y - m) * (y - m)) ys) in
  let sz := Standard.sum (map (fun z => (z - 0) * (z - 0)) zs) in
  let n := INR (List.length zs) in
  sy <= (1 + 2 * eps) * sz + n * (2 * eps + 4 * eps * eps) /\
  (1 - 2 * eps) * sz - n * (2 * eps) <= sy.
Proof.
  intros He Hm. induction 1 as [|y z ys zs Hyz _ IH].
  - simpl. split; Lra.lra.
  - change (List.length (z :: zs)) with (S (List.length zs)). rewrite S_INR. simpl.
    simpl in IH. destruct IH as [IH1 IH2].
    destruct (@square_close eps m y z He Hm Hyz) as [H1 H2].
    split; Lra.lra.
Qed.

(** A column within [eps] of a column of mean 0 and variance 1 has its
    mean within [eps] of 0 and its deviation within [4 * eps] of 1. *)
Lemma moments_close (eps : R) (ys zs : list R) :
  0 <= eps <= 1 / 4 ->
  Forall2 (fun y z => Rabs (y - z) <= eps) ys zs ->
  zs <> [] ->
  Standard.mean zs = 0 ->
  Standard.std zs = 1 ->
  Rabs (Standard.mean ys) <= eps /\ Rabs (Standard.std ys - 1) <= 4 * eps.
Proof.
  intros [He0 He1] Hclose Hne Hmean Hstd.
  pose proof (Forall2_length Hclose) as Hlen.
  pose proof (INR_length_nonzero Hne) as Hn.
  assert (0 < INR (List.length zs)) as Hn'.
  { pose proof (pos_INR (List.length zs)). Lra.lra. }
  assert (Standard.sum zs = 0) as Hsumz.
  { unfold Standard.mean in Hmean. unfold Rdiv in Hmean.
    apply Rmult_integral in Hmean. destruct Hmean as [H | H]; [assumption|].
    exfalso. apply (Rinv_neq_0_compat _ Hn). assumption. }
  assert (Rabs (Standard.mean ys) <= eps) as Hm.
  { unfold Standard.mean. rewrite Hlen.
    pose proof (@sum_close eps ys zs Hclose) as Hs. rewrite Hsumz, Rminus_0_r in Hs.
    unfold Rdiv. rewrite Rabs_mult, (Rabs_right (/ _)).
    - apply Rmult_le_reg_r with (r := INR (List.length zs)); [assumption|].
      rewrite Rmult_assoc, Rinv_l, Rmult_1_r by assumption. Lra.lra.
    - apply Rle_ge, Rlt_le, Rinv_0_lt_compat. assumption. }
  split; [exact Hm|].
  assert (Standard.var zs = 1) as Hvar.
  { unfold Standard.std in Hstd.
    destruct (Rle_or_lt 0 (Standard.var zs)) as [H | H].
    - rewrite <- (sqrt_sqrt _ H), Hstd. ring.
    - rewrite sqrt_neg_0 in Hstd by Lra.lra. Lra.lra. }
  assert (Standard.sum (map (fun z => (z - 0) * (z - 0)) zs) = INR (List.length zs))
    as Hsq.
  { unfold Standard.var in Hvar. rewrite Hmean in Hvar.
    apply (Rmult_eq_compat_r (INR (List.length zs))) in Hvar.
    unfold Rdiv in Hvar. rewrite Rmult_assoc, Rinv_l, Rmult_1_r, Rmult_1_l in Hvar
      by assumption. exact Hvar. }
  destruct (@squares_close eps (Standard.mean ys) ys zs He0 Hm Hclose) as [Hup Hlo]. rewrite Hsq in Hup, Hlo.
  set (n := INR (List.length zs)) in *.
  assert (1 - 4 * eps <= Standard.var ys <= (1 + 2 * eps) * (1 + 2 * eps))
    as [Hv1 Hv2].
  { unfold Standard.var. rewrite Hlen. fold n. split.
    - apply Rmult_le_reg_r with (r := n); [assumption|].
      unfold Rdiv. rewrite Rmult_assoc, Rinv_l, Rmult_1_r by assumption. Lra.lra.
    - apply Rmult_le_reg_r with (r := n); [assumption|].
      unfold Rdiv. rewrite Rmult_assoc, Rinv_l, Rmult_1_r by assumption. Lra.lra. }
  assert (Standard.std ys <= 1 + 2 * eps) as Hs2.
  { unfold Standard.std. rewrite <- (sqrt_square (1 + 2 * eps)) by Lra.lra.
    now apply sqrt_le_1_alt. }
  assert (1 - 4 * eps <= Standard.std ys) as Hs1.
  { unfold Standard.std.
    assert (0 <= 1 - 4 * eps) as Ht by Lra.lra.
    eapply Rle_trans; [|apply sqrt_le_1_alt; exact Hv1].
    pose proof (sqrt_pos (1 - 4 * eps)) as Hp.
    assert (sqrt (1 - 4 * eps) <= 1) as H1.
    { pose proof (sqrt_le_1_alt (1 - 4 * eps) 1) as H. rewrite sqrt_1 in H.
      apply H. Lra.lra. }
    pose proof (sqrt_sqrt _ Ht) as Hsq'.
    assert (sqrt (1 - 4 * eps) * sqrt (1 - 4 * eps) <= sqrt (1 - 4 * eps) * 1)
      by (apply Rmult_le_compat_l; assumption).
    Lra.lra. }
  apply Rabs_le. Lra.lra.
Qed.

End Tolerance.

(** [standardize] with a scaler given from outside. *)
Definition standardize_with (scale : list (option R) -> list (option R))
    (df : DataFrame R) (excluded_colnames : list string)
  : result (DataFrame R) * list string :=
  normalize IZR scale df excluded_colnames.

Lemma standardize_is_exact : standardize = standardize_with Standard.StandardScaler.
Proof. reflexivity. Qed.

(** The cells of a column lie within [tol] of the given numbers. *)
Definition near (tol : R) (cells : list (option R)) (targets : list R) : Prop :=
  Forall2 (fun cell t => match cell with
                         | Some y => (Rabs (y - t) <= tol)%R
                         | None => False
                         end) cells targets.

Lemma root_three_halves_tight (t : R) :
  (0 < t -> t * t = 3 / 2 -> Rabs (t - 12247 / 10000) <= 5 / 100000)%R.
Proof.
  intros Ht Hsq. apply Rabs_le. split.
  - destruct (Rle_or_lt (12247 / 10000 - 5 / 100000) t) as [H | H]; [Lra.lra|].
    exfalso. Lra.nra.
  - destruct (Rle_or_lt t (12247 / 10000 + 5 / 100000)) as [H | H]; [Lra.lra|].
    exfalso. Lra.nra.
Qed.

Lemma close_three (eps : R) (Y : list (option R)) (z1 z2 z3 : R) :
  Forall2 (close eps) Y [Some z1; Some z2; Some z3] ->
  exists y1 y2 y3,
    Y = [Some y1; Some y2; Some y3] /\
    (Rabs (y1 - z1) <= eps /\ Rabs (y2 - z2) <= eps /\ Rabs (y3 - z3) <= eps)%R.
Proof.
  intros H.
  inversion H as [|a1 b1 Y1 Z1 H1 T1]; subst.
  inversion T1 as [|a2 b2 Y2 Z2 H2 T2]; subst.
  inversion T2 as [|a3 b3 Y3 Z3 H3 T3]; subst.
  inversion T3; subst.
  destruct a1 as [y1|], a2 as [y2|], a3 as [y3|]; simpl in *; try contradiction.
  exists y1, y2, y3. tauto.
Qed.

Lemma near_three (eps t y1 y2 y3 : R) :
  (0 <= eps <= 5 / 100000 ->
   Rabs (t - 12247 / 10000) <= 5 / 100000 ->
   Rabs (y1 - - t) <= eps -> Rabs (y2 - 0) <= eps -> Rabs (y3 - t) <= eps ->
   near (1 / 10000) [Some y1; Some y2; Some y3]
     [- (12247 / 10000); 0; 12247 / 10000])%R.
Proof.
  intros He Ht H1 H2 H3.
  apply Rabs_bounds in Ht. apply Rabs_bounds in H1.
  apply Rabs_bounds in H2. apply Rabs_bounds in H3.
  unfold near.
  constructor; [apply Rabs_le; Lra.lra|].
  constructor; [apply Rabs_le; Lra.lra|].
  constructor; [apply Rabs_le; Lra.lra|].
  constructor.
Qed.

(** C2, amended. Over the default index, every column of the result of
    [standardize] that is not in the excluded list is a numeric column of
    the input with the scaler applied row for row; and for every
    tolerance eps between 0 and 1/4, if the values that the scaler
    returns for that column are within eps of the exact (x - mean) / std
    (population deviation), and the column holds two different values,
    then its mean in the result is within eps of 0 and its population
    deviation within 4 eps of 1.  On the scenario dataset, if the scaler
    is within eps <= 0.00005 of the exact values on feat1 and feat2, they
    come back within 0.0001 of [-1.2247, 0, 1.2247]. *)
Theorem standardize_moments_within_tolerance :
  (forall (scale : list (option R) -> list (option R)) (eps : R)
          (df out : DataFrame R) (excluded : list string),
      (0 <= eps <= 1 / 4)%R ->
      (forall v, List.length (scale v) = List.length v) ->
      well_formed df ->
      index df = RangeIndex (nrows df) ->
      fst (standardize_with scale df excluded) = Ok out ->
      forall c', In c' (columns out) ->
                 ~ In (cname c') (snd (standardize_with scale df excluded)) ->
        exists c, In c (numeric_block df excluded) /\
                  cname c = cname c' /\
                  cdata c' = NumData (scale (values c)) /\
                  (Forall2 (close eps) (scale (values c))
                     (Standard.StandardScaler (values c)) ->
                   (exists x y, In x (present (values c)) /\
                                In y (present (values c)) /\ x <> y) ->
                   (Rabs (Standard.mean (present (values c'))) <= eps)%R /\
                   (Rabs (Standard.std (present (values c')) - 1) <= 4 * eps)%R)) /\
  (forall (scale : list (option R) -> list (option R)) (eps : R),
      (0 <= eps <= 5 / 100000)%R ->
      Forall2 (close eps) (scale [Some 0; Some 5; Some 10]%R)
        (Standard.StandardScaler [Some 0; Some 5; Some 10]%R) ->
      Forall2 (close eps) (scale [Some 10; Some 20; Some 30]%R)
        (Standard.StandardScaler [Some 10; Some 20; Some 30]%R) ->
      exists out v1 v2,
        fst (standardize_with scale (Scenario.datasetR [0; 1; 2]%Z) ["id"; "ts"]%string)
        = Ok out /\
        Scenario.cells "feat1" (Ok out) = [v1] /\
        Scenario.cells "feat2" (Ok out) = [v2] /\
        near (1 / 10000) v1 [- (12247 / 10000); 0; 12247 / 10000]%R /\
        near (1 / 10000) v2 [- (12247 / 10000); 0; 12247 / 10000]%R).
Proof.
  split.
  - intros scale eps df out excluded Heps Hlen Hwf Hidx H c' Hc' Hex.
    unfold standardize_with in *. rewrite normalize_snd in Hex.
    apply normalize_positional in H; [|assumption|assumption|assumption].
    subst out. simpl in Hc'. apply in_app_or in Hc'. destruct Hc' as [Hc' | Hc'].
    { exfalso. apply Hex. apply In_pick in Hc'. tauto. }
    apply in_map_iff in Hc'. destruct Hc' as [c [<- Hc]].
    exists c. split; [assumption|]. split; [reflexivity|]. split; [reflexivity|].
    intros Hclose [x [y [Hx [Hy Hxy]]]].
    change (values (scaled scale c)) with (scale (values c)).
    assert (Standard.std (present (values c)) <> 0%R) as Hstd
        by now apply std_nonzero_of_distinct with (x := x) (y := y).
    destruct (StandardScaler_moments _ Hstd) as [Hmean Hdev].
    apply moments_close with (zs := present (Standard.StandardScaler (values c))).
    + assumption.
    + now apply present_close.
    + intros Hnil. rewrite Hnil in Hdev. unfold Standard.std, Standard.var in Hdev.
      simpl in Hdev. unfold Rdiv in Hdev. rewrite Rmult_0_l, sqrt_0 in Hdev.
      Lra.lra.
    + assumption.
    + assumption.
  - intros scale eps Heps H1 H2.
    destruct (@StandardScaler_equally_spaced 0 5 10 5) as [t [Ht [Hsq E1]]];
      [Lra.lra | Lra.lra | Lra.lra |].
    destruct (@StandardScaler_equally_spaced 10 20 30 10) as [t' [Ht' [Hsq' E2]]];
      [Lra.lra | Lra.lra | Lra.lra |].
    assert (t' = t) as -> by Lra.nra.
    pose proof (root_three_halves_tight Ht Hsq) as Hroot.
    rewrite E1 in H1. rewrite E2 in H2.
    apply close_three in H1. destruct H1 as [a1 [a2 [a3 [Ea [Ha1 [Ha2 Ha3]]]]]].
    apply close_three in H2. destruct H2 as [b1 [b2 [b3 [Eb [Hb1 [Hb2 Hb3]]]]]].
    eexists. exists [Some a1; Some a2; Some a3], [Some b1; Some b2; Some b3].
    split; [|split; [|split; [|split]]].
    + unfold standardize_with. cbv -[IZR]. reflexivity.
    + cbv -[IZR]. rewrite Ea. reflexivity.
    + cbv -[IZR]. rewrite Eb. reflexivity.
    + now apply near_three with (eps := eps) (t := t).
    + now apply near_three with (eps := eps) (t := t).
Qed.

(** A scaler that is off by [tiny] at every value. *)
Definition tiny : R := (1 / 10 ^ 16)%R.

Lemma tiny_bounds : (0 < tiny /\ tiny <= 1 / 4)%R.
Proof. unfold tiny. simpl. split; Lra.lra. Qed.

Definition shifted_scaler (X : list (option R)) : list (option R) :=
  map (option_map (fun y => (y + tiny)%R)) (Standard.StandardScaler X).

Lemma shifted_scaler_close (X : list (option R)) :
  Forall2 (close tiny) (shifted_scaler X) (Standard.StandardScaler X).
Proof.
  pose proof tiny_bounds as [Hpos _].
  unfold shifted_scaler. induction (Standard.StandardScaler X) as [|[y|] L IH];
    cbn [map option_map]; constructor; try assumption.
  - cbn [close]. replace (y + tiny - y)%R with tiny by ring.
    rewrite Rabs_right; Lra.lra.
  - exact I.
Qed.

Lemma standardize_moments_within_tolerance_witness :
  exists out c',
    fst (standardize_with shifted_scaler (Scenario.datasetR [0; 1; 2]%Z)
           ["id"; "ts"]%string) = Ok out /\
    In c' (columns out) /\ cname c' = "feat1"%string /\
    (Rabs (Standard.mean (present (values c'))) <= tiny)%R /\
    (Rabs (Standard.std (present (values c')) - 1) <= 4 * tiny)%R.
Proof.
  pose proof tiny_bounds as [Hpos Hsmall].
  eexists. eexists. split; [|split; [|split]].
  - unfold standardize_with. cbv -[shifted_scaler IZR]. reflexivity.
  - simpl. right. right. left. reflexivity.
  - reflexivity.
  - edestruct (proj1 standardize_moments_within_tolerance)
      with (scale := shifted_scaler) (eps := tiny)
           (df := Scenario.datasetR [0; 1; 2]%Z) (excluded := ["id"; "ts"]%string)
      as [c [Hc [Hname [_ Hmoments]]]].
    + split; [Lra.lra | assumption].
    + intros v. unfold shifted_scaler. rewrite length_map. apply StandardScaler_length.
    + repeat constructor.
    + reflexivity.
    + unfold standardize_with. cbv -[shifted_scaler IZR]. reflexivity.
    + simpl. right. right. left. reflexivity.
    + unfold standardize_with. rewrite normalize_snd.
      cbv -[shifted_scaler IZR]. intros [H | [H | []]]; discriminate.
    + apply Hmoments; [apply shifted_scaler_close|].
      cbv -[IZR] in Hc. simpl in Hname.
      destruct Hc as [<- | [<- | []]]; [|discriminate].
      exists 0%R, 5%R. simpl. split; [now left|]. split; [right; now left | Lra.lra].
Defined.

(** C9, at a dataframe whose labels start at 10. On the scenario dataset
    with row labels 10, 11, 12, [standardize] returns feat1 and feat2 with
    every value missing, and applied to that result it returns the same:
    neither application yields a column of mean 0 and deviation 1. *)
Theorem standardize_twice_labels_from_ten :
  exists out1 out2,
    fst (standardize (Scenario.datasetR [10; 11; 12]%Z) ["id"; "ts"]%string) = Ok out1 /\
    Scenario.cells "feat1" (Ok out1) = [[None; None; None]] /\
    Scenario.cells "feat2" (Ok out1) = [[None; None; None]] /\
    fst (standardize out1 ["id"; "ts"]%string) = Ok out2 /\
    Scenario.cells "feat1" (Ok out2) = [[None; None; None]] /\
    Scenario.cells "feat2" (Ok out2) = [[None; None; None]].
Proof.
  eexists. eexists. split; [|split; [|split; [|split; [|split]]]].
  - unfold standardize. cbv -[Standard.StandardScaler IZR]. reflexivity.
  - reflexivity.
  - reflexivity.
  - unfold standardize. cbv -[Standard.StandardScaler IZR]. reflexivity.
  - reflexivity.
  - reflexivity.
Qed.


(** * Further properties of the four functions *)

(** ** The scaler of each function *)

Definition scaler (f : func) : list (option (num_of f)) -> list (option (num_of f)) :=
  match f with
  | ZeroOne => MinMax.MinMaxScaler (0, 1)%Q
  | NegativeOneOne => MinMax.MinMaxScaler (-1, 1)%Q
  | Standardize => Standard.StandardScaler
  | RobustStandardize => Robust.RobustScaler
  end.

Definition label_number (f : func) : Z -> num_of f :=
  match f with
  | Standardize => IZR
  | _ => inject_Z
  end.

Lemma run_scaler (f : func) (df : DataFrame (num_of f)) (excluded : list string) :
  run f df excluded = normalize (label_number f) (scaler f) df excluded.
Proof. destruct f; reflexivity. Qed.

Lemma scaler_length (f : func) (v : list (option (num_of f))) :
  List.length (scaler f v) = List.length v.
Proof.
  destruct f; simpl.
  - apply MinMaxScaler_length.
  - apply MinMaxScaler_length.
  - apply StandardScaler_length.
  - apply RobustScaler_length.
Qed.

(** ** Errors *)

(** X1. When the excluded list names something that is no column of the
    dataframe, a call of any of the four functions raises a [KeyError]
    that lists exactly the excluded names that are no columns; the list
    object has been extended all the same. *)
Theorem unknown_excluded_name_raises
    (f : func) (df : DataFrame (num_of f)) (excluded : list string) (n : string) :
  In n excluded -> ~ In n (list_df df) ->
  exists missing,
    fst (run f df excluded) = Raise (KeyError missing) /\
    (forall m, In m missing <-> In m excluded /\ ~ In m (list_df df)) /\
    snd (run f df excluded) =
      excluded ++ map (@cname _) (non_numeric_block df excluded).
Proof.
  intros Hn Hmiss. rewrite run_scaler, normalize_snd, normalize_fst.
  unfold getitem.
  set (missing := filter (fun n => negb (mem n (list_df df))) (extended df excluded)).
  assert (forall m, In m missing <-> In m excluded /\ ~ In m (list_df df)) as Hchar.
  { intros m. unfold missing. rewrite filter_In, negb_true_iff, mem_false, In_extended.
    split.
    - intros [[H | [c [Hc [<- _]]]] Hm]; [tauto|].
      exfalso. apply Hm. unfold list_df. now apply in_map.
    - intros [H Hm]. tauto. }
  exists missing. split; [|split; [exact Hchar | reflexivity]].
  destruct missing as [|m ms] eqn:E; [|reflexivity].
  exfalso. apply (proj2 (Hchar n)). tauto.
Qed.

Lemma unknown_excluded_name_raises_witness :
  exists missing,
    fst (zero_one_normalize (Scenario.dataset [0; 1; 2]%Z) ["id"; "label"]%string)
    = Raise (KeyError missing) /\
    (forall m, In m missing <->
               In m ["id"; "label"]%string /\
               ~ In m (list_df (Scenario.dataset [0; 1; 2]%Z))) /\
    snd (zero_one_normalize (Scenario.dataset [0; 1; 2]%Z) ["id"; "label"]%string) =
      ["id"; "label"]%string
      ++ map (@cname _)
           (non_numeric_block (Scenario.dataset [0; 1; 2]%Z) ["id"; "label"]%string).
Proof.
  apply (@unknown_excluded_name_raises ZeroOne
           (Scenario.dataset [0; 1; 2]%Z) ["id"; "label"]%string "label"%string).
  - simpl. right. now left.
  - simpl. intuition discriminate.
Defined.

(** X2. On a dataframe without rows, a call of any of the four functions
    whose excluded names are all columns raises a [ValueError]: the scaler
    refuses a block without samples. *)
Theorem no_rows_raises
    (f : func) (df : DataFrame (num_of f)) (excluded : list string) :
  nrows df = 0%nat ->
  (forall n, In n excluded -> In n (list_df df)) ->
  fst (run f df excluded) = Raise ValueError.
Proof.
  intros Hrows Hex. rewrite run_scaler, normalize_fst.
  rewrite getitem_present.
  - simpl. unfold fit_transform, check_array. simpl.
    unfold numeric_block at 1. rewrite as_float_numbers. simpl.
    unfold nrows in *. simpl. rewrite Hrows. reflexivity.
  - intros n Hn. apply In_extended in Hn. destruct Hn as [Hn | [c [Hc [<- _]]]].
    + now apply Hex.
    + unfold list_df. now apply in_map.
Qed.

Lemma no_rows_raises_witness :
  fst (robust_standardize
         (mkdf [] [mkcol "id" (NumData []); mkcol "feat1" (NumData [])])
         ["id"]%string) = Raise ValueError.
Proof.
  apply (@no_rows_raises RobustStandardize
           (mkdf [] [mkcol "id" (NumData []); mkcol "feat1" (NumData [])])
           ["id"]%string).
  - reflexivity.
  - simpl. intros n [<- | []]. now left.
Defined.

(** ** Rows *)

Lemma position_RangeIndex (n : nat) (l : Z) :
  position (RangeIndex n) l =
  if (0 <=? l)%Z && (l <? Z.of_nat n)%Z then Some (Z.to_nat l) else None.
Proof.
  destruct ((0 <=? l)%Z && (l <? Z.of_nat n)%Z) eqn:E.
  - apply andb_true_iff in E. destruct E as [E1 E2].
    apply Z.leb_le in E1. apply Z.ltb_lt in E2.
    rewrite <- (Z2Nat.id l) at 1 by assumption.
    apply position_range. lia.
  - apply position_absent. rewrite In_RangeIndex. intros [H1 H2].
    apply Z.leb_le in H1. apply Z.ltb_lt in H2. rewrite H1, H2 in E. discriminate.
Qed.

(** The cells that the join gives to the rows of the input, for a scaled
    feature [v]: the row labelled [l] gets the value at POSITION [l]. *)
Definition by_label {A : Type} (labels : list Z) (v : list (option A)) : list (option A) :=
  map (fun l => if (0 <=? l)%Z && (l <? Z.of_nat (List.length labels))%Z
                then nth (Z.to_nat l) v None
                else None) labels.

(** X4. Whatever the row labels are, a call of any of the four functions
    that returns gives the excluded block followed by one column per
    numeric candidate, which holds, at the row labelled l, the scaled
    value of the row at position l when 0 <= l < n, and a missing value
    otherwise. *)
Theorem scaled_cells_follow_labels
    (f : func) (df out : DataFrame (num_of f)) (excluded : list string) :
  fst (run f df excluded) = Ok out ->
  out = mkdf (index df)
          (pick df (extended df excluded) ++
           map (fun c => mkcol (cname c)
                           (NumData (by_label (index df) (scaler f (values c)))))
             (numeric_block df excluded)).
Proof.
  rewrite run_scaler. intros H. apply normalize_Ok in H.
  destruct H as [_ [_ [_ [_ ->]]]]. f_equal. f_equal.
  apply map_ext. intros c. unfold reindex, scaled. simpl. f_equal. f_equal.
  unfold take, by_label. apply map_ext. intros l.
  rewrite position_RangeIndex. unfold nrows.
  destruct ((0 <=? l)%Z && (l <? Z.of_nat (List.length (index df)))%Z); reflexivity.
Qed.

Lemma scaled_cells_follow_labels_witness :
  exists out : DataFrame Q,
    fst (zero_one_normalize (Scenario.dataset [0; 1; 0]%Z) ["id"; "ts"]%string) = Ok out /\
    out = mkdf [0; 1; 0]%Z
            (pick (Scenario.dataset [0; 1; 0]%Z)
               (extended (Scenario.dataset [0; 1; 0]%Z) ["id"; "ts"]%string) ++
             map (fun c => mkcol (cname c)
                             (NumData (by_label [0; 1; 0]%Z
                                         (MinMax.MinMaxScaler (0, 1)%Q (values c)))))
               (numeric_block (Scenario.dataset [0; 1; 0]%Z) ["id"; "ts"]%string)).
Proof.
  eexists. split.
  - vm_compute. reflexivity.
  - apply (@scaled_cells_follow_labels ZeroOne
             (Scenario.dataset [0; 1; 0]%Z) _ ["id"; "ts"]%string).
    vm_compute. reflexivity.
Defined.

(** X5. Over the default index 0 .. n-1, a call of any of the four
    functions that returns gives the excluded block followed by the
    numeric candidates with the scaler of the function applied, each row
    keeping its place. *)
Theorem default_index_rows_aligned
    (f : func) (df out : DataFrame (num_of f)) (excluded : list string) :
  well_formed df ->
  index df = RangeIndex (nrows df) ->
  fst (run f df excluded) = Ok out ->
  out = mkdf (index df)
          (pick df (extended df excluded) ++
           map (fun c => mkcol (cname c) (NumData (scaler f (values c))))
             (numeric_block df excluded)).
Proof.
  rewrite run_scaler. apply normalize_positional. apply scaler_length.
Qed.

Lemma default_index_rows_aligned_witness :
  exists out : DataFrame Q,
    fst (robust_standardize (Scenario.dataset [0; 1; 2]%Z) ["id"; "ts"]%string) = Ok out /\
    out = mkdf [0; 1; 2]%Z
            (pick (Scenario.dataset [0; 1; 2]%Z)
               (extended (Scenario.dataset [0; 1; 2]%Z) ["id"; "ts"]%string) ++
             map (fun c => mkcol (cname c) (NumData (Robust.RobustScaler (values c))))
               (numeric_block (Scenario.dataset [0; 1; 2]%Z) ["id"; "ts"]%string)).
Proof.
  eexists. split.
  - vm_compute. reflexivity.
  - apply (@default_index_rows_aligned RobustStandardize
             (Scenario.dataset [0; 1; 2]%Z) _ ["id"; "ts"]%string).
    + repeat constructor.
    + reflexivity.
    + vm_compute. reflexivity.
Defined.

(** X6. A call of any of the four functions that returns, on a dataframe
    whose columns have one value per row, keeps the row labels and gives
    a dataframe whose columns have one value per row, whatever the labels
    are: no row is added or dropped. *)
Theorem result_shape
    (f : func) (df out : DataFrame (num_of f)) (excluded : list string) :
  well_formed df ->
  fst (run f df excluded) = Ok out ->
  index out = index df /\ well_formed out.
Proof.
  rewrite run_scaler. intros Hwf H.
  assert (Hout := H). apply normalize_row_count in Hout; [|assumption].
  destruct Hout as [_ Hout].
  apply normalize_Ok in H. destruct H as [_ [_ [_ [_ ->]]]].
  split; [reflexivity | exact Hout].
Qed.

Lemma result_shape_witness :
  exists out : DataFrame Q,
    fst (zero_one_normalize (Scenario.dataset [4; 4; 9]%Z) ["id"]%string) = Ok out /\
    index out = [4; 4; 9]%Z /\ well_formed out.
Proof.
  eexists. split.
  - vm_compute. reflexivity.
  - apply (@result_shape ZeroOne (Scenario.dataset [4; 4; 9]%Z) _ ["id"]%string).
    + repeat constructor.
    + vm_compute. reflexivity.
Defined.

(** ** Calling again with the same list *)

Lemma nil_of_no_member {A : Type} (l : list A) : (forall x, ~ In x l) -> l = [].
Proof.
  destruct l as [|x l]; [reflexivity|]. intros H. exfalso. apply (H x). now left.
Qed.

Lemma filter_twice_ext {A : Type} (p q q' : A -> bool) (l : list A) :
  (forall x, In x l -> p x = true -> q x = q' x) ->
  filter p (filter q l) = filter p (filter q' l).
Proof.
  induction l as [|x l IH]; intros H; [reflexivity|].
  simpl. assert (filter p (filter q l) = filter p (filter q' l)) as IH'.
  { apply IH. intros y Hy. apply H. now right. }
  destruct (p x) eqn:Px.
  - rewrite <- (H x (or_introl eq_refl) Px).
    destruct (q x); simpl; [rewrite Px|]; now rewrite IH'.
  - destruct (q x), (q' x); simpl; rewrite ?Px; exact IH'.
Qed.

Section Again.

Variable num : Type.
Variable of_Z : Z -> num.
Variable scale : list (option num) -> list (option num).

Abbreviation column := (column num).
Abbreviation DataFrame := (DataFrame num).

(** Once the list has been extended for [df], nothing is left to append. *)
Lemma extended_twice (df : DataFrame) (excluded : list string) :
  extended df (extended df excluded) = extended df excluded.
Proof.
  unfold extended at 1.
  rewrite (@nil_of_no_member _ (non_numeric_block df (extended df excluded))).
  - apply app_nil_r.
  - intros c Hc. apply In_non_numeric_block in Hc. destruct Hc as [Hc [Hex Hn]].
    apply Hex. apply In_extended. right. exists c. tauto.
Qed.

Lemma numeric_block_extended (df : DataFrame) (excluded : list string) :
  NoDup (list_df df) ->
  numeric_block df (extended df excluded) = numeric_block df excluded.
Proof.
  intros Hnd. unfold numeric_block. rewrite !candidates_distinct by assumption.
  unfold not_excluded. apply filter_twice_ext. intros c Hc Hnum.
  destruct (is_number c) eqn:N; [|discriminate]. f_equal.
  destruct (mem (cname c) excluded) eqn:M.
  - apply mem_In. apply In_extended. left. now apply mem_In.
  - apply mem_false. intros Hin. apply In_extended in Hin.
    destruct Hin as [Hin | [c' [Hc' [E Hn']]]].
    + apply mem_false in M. contradiction.
    + assert (c' = c) as -> by (apply (@same_name_same_column _ _ _ _ Hnd); assumption).
      congruence.
Qed.

Lemma normalize_again (df : DataFrame) (excluded : list string) :
  snd (normalize of_Z scale df (snd (normalize of_Z scale df excluded))) =
  snd (normalize of_Z scale df excluded) /\
  (NoDup (list_df df) ->
   fst (normalize of_Z scale df (snd (normalize of_Z scale df excluded))) =
   fst (normalize of_Z scale df excluded)).
Proof.
  rewrite !normalize_snd. split; [apply extended_twice|].
  intros Hnd. rewrite !normalize_fst, extended_twice.
  now rewrite numeric_block_extended.
Qed.

End Again.

(** X7. A second call of the same function on the same dataframe with the
    list that the first call left behind appends nothing more, and, the
    column names being distinct, it ends as the first call ended: it
    returns the same dataframe or raises the same error. *)
Theorem second_call_same_result
    (f : func) (df : DataFrame (num_of f)) (excluded : list string) :
  snd (run f df (snd (run f df excluded))) = snd (run f df excluded) /\
  (NoDup (list_df df) ->
   fst (run f df (snd (run f df excluded))) = fst (run f df excluded)).
Proof.
  rewrite !run_scaler. apply normalize_again.
Qed.

Lemma second_call_same_result_witness :
  snd (zero_one_normalize (Scenario.dataset [0; 1; 2]%Z)
         (snd (zero_one_normalize (Scenario.dataset [0; 1; 2]%Z) ["id"]%string)))
  = snd (zero_one_normalize (Scenario.dataset [0; 1; 2]%Z) ["id"]%string) /\
  fst (zero_one_normalize (Scenario.dataset [0; 1; 2]%Z)
         (snd (zero_one_normalize (Scenario.dataset [0; 1; 2]%Z) ["id"]%string)))
  = fst (zero_one_normalize (Scenario.dataset [0; 1; 2]%Z) ["id"]%string).
Proof.
  destruct (@second_call_same_result ZeroOne
              (Scenario.dataset [0; 1; 2]%Z) ["id"]%string) as [Hlist Hresult].
  split; [exact Hlist|]. apply Hresult.
  repeat constructor; simpl; intuition discriminate.
Defined.

(** ** The robust scaler *)

From Stdlib Require Import Sorted.

Section RobustFacts.
Local Open Scope Q_scope.

Lemma In_insert (x z : Q) (l : list Q) : In z (Robust.insert x l) <-> z = x \/ In z l.
Proof.
  induction l as [|y l IH]; simpl; [intuition congruence|].
  destruct (Qle_bool x y); simpl; [intuition congruence|].
  rewrite IH. intuition congruence.
Qed.

Lemma insert_sorted (x : Q) (l : list Q) :
  StronglySorted Qle l -> StronglySorted Qle (Robust.insert x l).
Proof.
  induction l as [|y l IH]; intros Hs; simpl.
  - constructor; constructor.
  - inversion Hs as [|y' l' Hs' Hall]; subst.
    destruct (Qle_bool x y) eqn:E.
    + apply Qle_bool_iff in E. constructor; [assumption|].
      constructor; [assumption|].
      rewrite Forall_forall in *. intros z Hz. eapply Qle_trans; eauto.
    + assert (y <= x) as Hyx.
      { apply Qlt_le_weak, Qnot_le_lt. intros H. apply Qle_bool_iff in H. congruence. }
      constructor; [now apply IH|].
      rewrite Forall_forall in *. intros z Hz. apply In_insert in Hz.
      destruct Hz as [-> | Hz]; [assumption | now apply Hall].
Qed.

Lemma sort_sorted (l : list Q) : StronglySorted Qle (Robust.sort l).
Proof.
  induction l as [|x l IH]; simpl; [constructor|]. now apply insert_sorted.
Qed.

Lemma length_insert (x : Q) (l : list Q) :
  List.length (Robust.insert x l) = S (List.length l).
Proof.
  induction l as [|y l IH]; simpl; [reflexivity|].
  destruct (Qle_bool x y); simpl; [reflexivity | now rewrite IH].
Qed.

Lemma length_sort (l : list Q) : List.length (Robust.sort l) = List.length l.
Proof.
  induction l as [|x l IH]; simpl; [reflexivity|]. now rewrite length_insert, IH.
Qed.

Lemma sorted_nth (l : list Q) (d : Q) (i j : nat) :
  StronglySorted Qle l -> (i <= j < List.length l)%nat -> nth i l d <= nth j l d.
Proof.
  intros Hs. revert i j. induction Hs as [|x l Hs IH Hall]; intros i j H; simpl in H; [lia|].
  destruct i as [|i], j as [|j]; simpl; try lia.
  - apply Qle_refl.
  - rewrite Forall_forall in Hall. apply Hall, nth_In. lia.
  - apply IH. lia.
Qed.

(** The two values between which a percentile is interpolated. *)
Lemma percentile_between (q : Q) (s : list Q) :
  StronglySorted Qle s -> s <> [] -> 0 <= q <= 100 ->
  let h := inject_Z (Z.of_nat (List.length s - 1)) * q / 100 in
  let lo := Z.to_nat (Qfloor h) in
  (lo <= List.length s - 1)%nat /\
  inject_Z (Z.of_nat lo) <= h /\ h < inject_Z (Z.of_nat lo) + 1 /\
  nth lo s 0 <= Robust.percentile q s /\
  Robust.percentile q s <= nth (S lo) s (nth lo s 0) /\
  Robust.percentile q s ==
    nth lo s 0 + (h - inject_Z (Z.of_nat lo)) * (nth (S lo) s (nth lo s 0) - nth lo s 0).
Proof.
  intros Hs Hne [Hq0 Hq1] h lo.
  set (N := inject_Z (Z.of_nat (List.length s - 1))).
  assert (0 <= N) as HN.
  { unfold N. change 0 with (inject_Z 0). rewrite <- Zle_Qle. lia. }
  assert (0 <= h) as Hh0.
  { unfold h. fold N. apply Qle_shift_div_l; [reflexivity|].
    setoid_replace (0 * 100) with 0 by ring. now apply Qmult_le_0_compat. }
  assert (h <= N) as HhN.
  { unfold h. fold N. apply Qle_shift_div_r; [reflexivity|].
    apply Qmult_le_compat_nonneg; split; try assumption; apply Qle_refl. }
  assert (0 <= Qfloor h)%Z as Hf0.
  { change 0%Z with (Qfloor 0). now apply Qfloor_resp_le. }
  assert (Qfloor h <= Z.of_nat (List.length s - 1))%Z as HfN.
  { rewrite <- (Qfloor_Z (Z.of_nat (List.length s - 1))). now apply Qfloor_resp_le. }
  assert (inject_Z (Z.of_nat lo) = inject_Z (Qfloor h)) as Elo.
  { unfold lo. now rewrite Z2Nat.id. }
  assert ((lo <= List.length s - 1)%nat) as Hlo by (unfold lo; lia).
  pose proof (Qfloor_le h) as Hfl. pose proof (Qlt_floor h) as Hfu.
  assert (inject_Z (Qfloor h + 1) == inject_Z (Qfloor h) + 1) as Hplus.
  { rewrite inject_Z_plus. reflexivity. }
  rewrite Hplus in Hfu. rewrite <- Elo in Hfl, Hfu.
  set (a := nth lo s 0). set (b := nth (S lo) s a).
  assert (a <= b) as Hab.
  { unfold b. destruct (Nat.lt_ge_cases (S lo) (List.length s)) as [Hin | Hout].
    - rewrite (nth_indep s a 0 Hin). unfold a. apply sorted_nth; [assumption | lia].
    - rewrite nth_overflow by assumption. apply Qle_refl. }
  assert (Robust.percentile q s == a + (h - inject_Z (Z.of_nat lo)) * (b - a)) as Ep.
  { unfold Robust.percentile. fold N. fold h. fold lo. fold a. fold b.
    rewrite Elo. reflexivity. }
  split; [assumption|]. split; [assumption|]. split; [assumption|].
  split; [|split; [|exact Ep]]; rewrite Ep.
  - Lqa.nra.
  - Lqa.nra.
Qed.

Lemma percentile_mono (q1 q2 : Q) (s : list Q) :
  StronglySorted Qle s -> s <> [] -> 0 <= q1 -> q1 <= q2 -> q2 <= 100 ->
  Robust.percentile q1 s <= Robust.percentile q2 s.
Proof.
  intros Hs Hne H0 H12 H100.
  destruct (@percentile_between q1 s Hs Hne) as [Hl1 [Hf1 [Hu1 [Ha1 [Hb1 E1]]]]];
    [split; [assumption | eapply Qle_trans; eassumption]|].
  destruct (@percentile_between q2 s Hs Hne) as [Hl2 [Hf2 [Hu2 [Ha2 [Hb2 E2]]]]];
    [split; [eapply Qle_trans; eassumption | assumption]|].
  set (N := inject_Z (Z.of_nat (List.length s - 1))) in *.
  set (h1 := N * q1 / 100) in *. set (h2 := N * q2 / 100) in *.
  set (lo1 := Z.to_nat (Qfloor h1)) in *. set (lo2 := Z.to_nat (Qfloor h2)) in *.
  assert (0 <= N) as HN.
  { unfold N. change 0 with (inject_Z 0). rewrite <- Zle_Qle. lia. }
  assert (h1 <= h2) as Hh.
  { unfold h1, h2. apply Qle_shift_div_r; [reflexivity|].
    setoid_replace (N * q2 / 100 * 100) with (N * q2) by field.
    Lqa.nra. }
  assert ((lo1 <= lo2)%nat) as Hlo.
  { unfold lo1, lo2. apply Z2Nat.inj_le.
    - change 0%Z with (Qfloor 0). apply Qfloor_resp_le.
      eapply Qle_trans; [|exact Hf1]. change 0 with (inject_Z 0).
      rewrite <- Zle_Qle. lia.
    - change 0%Z with (Qfloor 0). apply Qfloor_resp_le.
      eapply Qle_trans; [|exact Hf2]. change 0 with (inject_Z 0).
      rewrite <- Zle_Qle. lia.
    - now apply Qfloor_resp_le. }
  destruct (Nat.eq_dec lo1 lo2) as [Eq | Neq].
  - rewrite E1, E2. rewrite <- Eq in *.
    assert (nth lo1 s 0 <= nth (S lo1) s (nth lo1 s 0)) as Hab
        by (eapply Qle_trans; eassumption).
    Lqa.nra.
  - eapply Qle_trans; [exact Hb1|]. eapply Qle_trans; [|exact Ha2].
    rewrite (nth_indep s (nth lo1 s 0) 0) by lia.
    apply sorted_nth; [assumption | lia].
Qed.

Lemma sort_nonempty (v : list Q) : v <> [] -> Robust.sort v <> [].
Proof.
  intros H E. apply (f_equal (@List.length Q)) in E. rewrite length_sort in E.
  destruct v; [congruence | discriminate].
Qed.

(** The scale of the robust scaler is positive: the interquartile range
    is not negative, and the guard replaces 0 by 1. *)
Lemma robust_scale_positive (v : list Q) :
  v <> [] ->
  0 < Robust.handle_zeros_in_scale
        (Robust.percentile 75 (Robust.sort v) - Robust.percentile 25 (Robust.sort v)).
Proof.
  intros Hne.
  assert (Robust.percentile 25 (Robust.sort v) <= Robust.percentile 75 (Robust.sort v))
    as Hiqr.
  { apply percentile_mono; [apply sort_sorted | now apply sort_nonempty | | |];
      discriminate. }
  unfold Robust.handle_zeros_in_scale.
  destruct (Qeq_bool _ 0) eqn:E; [reflexivity|].
  apply Qeq_bool_neq in E.
  destruct (Qlt_le_dec 0 (Robust.percentile 75 (Robust.sort v)
                          - Robust.percentile 25 (Robust.sort v))) as [H | H];
    [assumption|].
  exfalso. apply E. Lqa.lra.
Qed.

End RobustFacts.

(** ** The order of the values of a column *)

Definition le_num (f : func) : num_of f -> num_of f -> Prop :=
  match f with
  | Standardize => Rle
  | _ => Qle
  end.

Lemma present_has {A : Type} (X : list (option A)) (i : nat) (x : A) :
  nth_error X i = Some (Some x) -> In x (present X).
Proof.
  intros H. apply In_present. eapply nth_error_In. eassumption.
Qed.

Lemma MinMaxScaler_monotone (lo hi : Q) (X : list (option Q)) (i j : nat) (x1 x2 : Q) :
  (lo <= hi)%Q ->
  nth_error X i = Some (Some x1) ->
  nth_error X j = Some (Some x2) ->
  (x1 <= x2)%Q ->
  exists y1 y2,
    nth_error (MinMax.MinMaxScaler (lo, hi) X) i = Some (Some y1) /\
    nth_error (MinMax.MinMaxScaler (lo, hi) X) j = Some (Some y2) /\
    (y1 <= y2)%Q.
Proof.
  intros Hr H1 H2 Hle. pose proof (present_has _ _ H1) as Hin.
  unfold MinMax.MinMaxScaler.
  destruct (MinMax.nanmin (present X)) as [mn|] eqn:Hmin;
    [|destruct (present X); [destruct Hin | discriminate]].
  destruct (MinMax.nanmax (present X)) as [mx|] eqn:Hmax;
    [|destruct (present X); [destruct Hin | discriminate]].
  rewrite !nth_error_map, H1, H2. simpl.
  eexists. eexists. split; [reflexivity|]. split; [reflexivity|].
  pose proof (@nanmin_le _ _ _ Hmin Hin). pose proof (@nanmax_ge _ _ _ Hmax Hin).
  set (hz := MinMax.handle_zeros_in_scale (mx - mn)).
  assert (0 < hz)%Q as Hhz.
  { unfold hz, MinMax.handle_zeros_in_scale.
    destruct (Qeq_bool (mx - mn) 0) eqn:E; [reflexivity|].
    apply Qeq_bool_neq in E.
    destruct (Qlt_le_dec 0 (mx - mn)) as [Hp | Hp]; [assumption|].
    exfalso. apply E. Lqa.lra. }
  assert (0 <= (hi - lo) / hz)%Q as Hs.
  { apply Qle_shift_div_l; [assumption|]. Lqa.lra. }
  Lqa.nra.
Qed.

Lemma RobustScaler_monotone (X : list (option Q)) (i j : nat) (x1 x2 : Q) :
  nth_error X i = Some (Some x1) ->
  nth_error X j = Some (Some x2) ->
  (x1 <= x2)%Q ->
  exists y1 y2,
    nth_error (Robust.RobustScaler X) i = Some (Some y1) /\
    nth_error (Robust.RobustScaler X) j = Some (Some y2) /\
    (y1 <= y2)%Q.
Proof.
  intros H1 H2 Hle. pose proof (present_has _ _ H1) as Hin.
  unfold Robust.RobustScaler.
  destruct (present X) as [|a v] eqn:Hv; [destruct Hin|].
  rewrite <- Hv. rewrite !nth_error_map, H1, H2. simpl.
  eexists. eexists. split; [reflexivity|]. split; [reflexivity|].
  assert (present X <> []) as Hne by (rewrite Hv; discriminate).
  pose proof (robust_scale_positive Hne) as Hs.
  apply Qmult_le_compat_r; [Lqa.lra|].
  apply Qlt_le_weak, Qinv_lt_0_compat. assumption.
Qed.

Lemma StandardScaler_monotone (X : list (option R)) (i j : nat) (x1 x2 : R) :
  nth_error X i = Some (Some x1) ->
  nth_error X j = Some (Some x2) ->
  (x1 <= x2)%R ->
  exists y1 y2,
    nth_error (Standard.StandardScaler X) i = Some (Some y1) /\
    nth_error (Standard.StandardScaler X) j = Some (Some y2) /\
    (y1 <= y2)%R.
Proof.
  intros H1 H2 Hle. pose proof (present_has _ _ H1) as Hin.
  unfold Standard.StandardScaler.
  destruct (present X) as [|a v] eqn:Hv; [destruct Hin|].
  rewrite <- Hv. rewrite !nth_error_map, H1, H2. simpl.
  eexists. eexists. split; [reflexivity|]. split; [reflexivity|].
  assert (0 < Standard.handle_zeros_in_scale (Standard.std (present X)))%R as Hs.
  { unfold Standard.handle_zeros_in_scale.
    destruct (Req_dec_T (Standard.std (present X)) 0) as [E | E]; [Lra.lra|].
    pose proof (sqrt_pos (Standard.var (present X))) as Hp.
    unfold Standard.std in *. Lra.lra. }
  unfold Rdiv. apply Rmult_le_compat_r; [|Lra.lra].
  apply Rlt_le, Rinv_0_lt_compat. assumption.
Qed.

Lemma scaler_monotone (f : func) (X : list (option (num_of f))) (i j : nat)
    (x1 x2 : num_of f) :
  nth_error X i = Some (Some x1) ->
  nth_error X j = Some (Some x2) ->
  le_num f x1 x2 ->
  exists y1 y2,
    nth_error (scaler f X) i = Some (Some y1) /\
    nth_error (scaler f X) j = Some (Some y2) /\
    le_num f y1 y2.
Proof.
  destruct f; simpl.
  - apply MinMaxScaler_monotone. discriminate.
  - apply MinMaxScaler_monotone. discriminate.
  - apply StandardScaler_monotone.
  - apply RobustScaler_monotone.
Qed.

(** X11. Over the default index, each of the four functions keeps the
    order of the values of every numeric candidate: when the value at row
    i is at most the value at row j in the input, so it is in the
    result. *)
Theorem order_of_values_kept
    (f : func) (df out : DataFrame (num_of f)) (excluded : list string)
    (c : column (num_of f)) :
  well_formed df ->
  index df = RangeIndex (nrows df) ->
  fst (run f df excluded) = Ok out ->
  In c (numeric_block df excluded) ->
  exists c', In c' (columns out) /\ cname c' = cname c /\ is_number c' = true /\
    forall i j x1 x2,
      nth_error (values c) i = Some (Some x1) ->
      nth_error (values c) j = Some (Some x2) ->
      le_num f x1 x2 ->
      exists y1 y2,
        nth_error (values c') i = Some (Some y1) /\
        nth_error (values c') j = Some (Some y2) /\
        le_num f y1 y2.
Proof.
  intros Hwf Hidx H Hc. rewrite run_scaler in H.
  apply normalize_positional in H; [|apply scaler_length|assumption|assumption].
  subst out. exists (scaled (scaler f) c). simpl.
  split; [apply in_or_app; right; now apply in_map|].
  split; [reflexivity|]. split; [reflexivity|].
  intros i j x1 x2. apply scaler_monotone.
Qed.

Lemma order_of_values_kept_witness :
  exists out : DataFrame Q,
    fst (robust_standardize (Scenario.dataset [0; 1; 2]%Z) ["id"; "ts"]%string) = Ok out /\
    exists c', In c' (columns out) /\ cname c' = "feat1"%string /\ is_number c' = true /\
      forall i j x1 x2,
        nth_error (values (Scenario.numbers "feat1" [0; 5; 10]%Q)) i = Some (Some x1) ->
        nth_error (values (Scenario.numbers "feat1" [0; 5; 10]%Q)) j = Some (Some x2) ->
        (x1 <= x2)%Q ->
        exists y1 y2,
          nth_error (values c') i = Some (Some y1) /\
          nth_error (values c') j = Some (Some y2) /\
          (y1 <= y2)%Q.
Proof.
  eexists. split.
  - vm_compute. reflexivity.
  - apply (@order_of_values_kept RobustStandardize
             (Scenario.dataset [0; 1; 2]%Z) _ ["id"; "ts"]%string
             (Scenario.numbers "feat1" [0; 5; 10]%Q)).
    + repeat constructor.
    + reflexivity.
    + vm_compute. reflexivity.
    + vm_compute. now left.
Defined.

(** ** [robust_standardize] around the median *)

Section RobustCentre.
Local Open Scope Q_scope.

Lemma In_sort (z : Q) (l : list Q) : In z (Robust.sort l) <-> In z l.
Proof.
  induction l as [|x l IH]; simpl; [tauto|].
  rewrite In_insert, IH. intuition congruence.
Qed.

Lemma RobustScaler_cell (X : list (option Q)) (i : nat) (x : Q) :
  nth_error X i = Some (Some x) ->
  exists y s,
    nth_error (Robust.RobustScaler X) i = Some (Some y) /\
    0 < s /\
    y == (x - Robust.median (Robust.sort (present X))) / s.
Proof.
  intros Hx. pose proof (present_has _ _ Hx) as Hin.
  unfold Robust.RobustScaler.
  destruct (present X) as [|a v] eqn:Hv; [destruct Hin|].
  rewrite <- Hv. rewrite nth_error_map, Hx. simpl.
  eexists. eexists. split; [reflexivity|]. split; [|reflexivity].
  apply robust_scale_positive. rewrite Hv. discriminate.
Qed.

Lemma median_of_equal (m : Q) (v : list Q) :
  v <> [] -> (forall x, In x v -> x == m) -> Robust.median (Robust.sort v) == m.
Proof.
  intros Hne Hall.
  assert (forall k, (k < List.length (Robust.sort v))%nat ->
                    nth k (Robust.sort v) 0 == m) as Hnth.
  { intros k Hk. apply Hall, In_sort, nth_In. assumption. }
  assert (0 < List.length (Robust.sort v))%nat as Hlen.
  { rewrite length_sort. destruct v; [congruence | simpl; lia]. }
  unfold Robust.median.
  assert (List.length (Robust.sort v) / 2 < List.length (Robust.sort v))%nat as Hhalf
      by (apply Nat.div_lt; lia).
  destruct (Nat.even (List.length (Robust.sort v))).
  - rewrite !Hnth by lia. field.
  - now rewrite Hnth.
Qed.

End RobustCentre.

(** X12. Over the default index, [robust_standardize] centres every
    numeric candidate on its median: a value at or below the median of
    the column becomes at most 0, a value at or above it becomes at least
    0, and a value equal to it becomes 0. *)
Theorem robust_standardize_centred
    (df out : DataFrame Q) (excluded : list string) (c : column Q) :
  well_formed df ->
  index df = RangeIndex (nrows df) ->
  fst (robust_standardize df excluded) = Ok out ->
  In c (numeric_block df excluded) ->
  exists c', In c' (columns out) /\ cname c' = cname c /\
    forall i x, nth_error (values c) i = Some (Some x) ->
      exists y, nth_error (values c') i = Some (Some y) /\
        let med := Robust.median (Robust.sort (present (values c))) in
        ((x <= med -> y <= 0) /\ (med <= x -> 0 <= y) /\ (x == med -> y == 0))%Q.
Proof.
  intros Hwf Hidx H Hc. unfold robust_standardize in H.
  apply normalize_positional in H; [|apply RobustScaler_length|assumption|assumption].
  subst out. exists (scaled Robust.RobustScaler c). simpl.
  split; [apply in_or_app; right; now apply in_map|]. split; [reflexivity|].
  intros i x Hx. unfold values at 1. simpl.
  destruct (RobustScaler_cell _ _ Hx) as [y [s [Hy [Hs E]]]].
  exists y. split; [assumption|].
  assert (0 < / s)%Q as Hinv by now apply Qinv_lt_0_compat.
  unfold Qdiv in E. split; [|split]; intros Hm; rewrite E.
  - Lqa.nra.
  - Lqa.nra.
  - rewrite Hm. ring.
Qed.

Lemma robust_standardize_centred_witness :
  exists out : DataFrame Q,
    fst (robust_standardize (Scenario.dataset [0; 1; 2]%Z) ["id"; "ts"]%string) = Ok out /\
    exists c', In c' (columns out) /\ cname c' = "feat2"%string /\
      forall i x,
        nth_error (values (Scenario.numbers "feat2" [10; 20; 30]%Q)) i = Some (Some x) ->
        exists y, nth_error (values c') i = Some (Some y) /\
          let med := Robust.median
                       (Robust.sort
                          (present (values (Scenario.numbers "feat2" [10; 20; 30]%Q)))) in
          ((x <= med -> y <= 0) /\ (med <= x -> 0 <= y) /\ (x == med -> y == 0))%Q.
Proof.
  eexists. split.
  - vm_compute. reflexivity.
  - apply (@robust_standardize_centred
             (Scenario.dataset [0; 1; 2]%Z) _ ["id"; "ts"]%string
             (Scenario.numbers "feat2" [10; 20; 30]%Q)).
    + repeat constructor.
    + reflexivity.
    + vm_compute. reflexivity.
    + vm_compute. right. now left.
Defined.

(** ** Constant columns under [robust_standardize] *)

(** X15. Over the default index, a numeric candidate all of whose values
    are equal comes back from [robust_standardize] as 0 at every value:
    the zero interquartile range is replaced by 1. *)
Theorem constant_column_robust
    (df out : DataFrame Q) (excluded : list string) (c : column Q) (m : Q) :
  well_formed df ->
  index df = RangeIndex (nrows df) ->
  fst (robust_standardize df excluded) = Ok out ->
  In c (numeric_block df excluded) ->
  (forall x, In x (present (values c)) -> (x == m)%Q) ->
  exists c', In c' (columns out) /\ cname c' = cname c /\
    forall i x, nth_error (values c) i = Some (Some x) ->
      exists y, nth_error (values c') i = Some (Some y) /\ (y == 0)%Q.
Proof.
  intros Hwf Hidx H Hc Hall. unfold robust_standardize in H.
  apply normalize_positional in H; [|apply RobustScaler_length|assumption|assumption].
  subst out. exists (scaled Robust.RobustScaler c). simpl.
  split; [apply in_or_app; right; now apply in_map|]. split; [reflexivity|].
  intros i x Hx. unfold values at 1. simpl.
  destruct (RobustScaler_cell _ _ Hx) as [y [s [Hy [Hs E]]]].
  exists y. split; [assumption|].
  pose proof (present_has _ _ Hx) as Hin.
  rewrite E, median_of_equal with (m := m); [| |assumption].
  - rewrite (Hall x Hin). unfold Qdiv. ring.
  - intros Hnil. rewrite Hnil in Hin. destruct Hin.
Qed.

Lemma constant_column_robust_witness :
  let df := mkdf [0; 1; 2]%Z
              [Scenario.numbers "flat" [7; 7; 7]%Q; Scenario.numbers "x" [1; 2; 3]%Q] in
  exists out : DataFrame Q,
    fst (robust_standardize df []) = Ok out /\
    exists c', In c' (columns out) /\ cname c' = "flat"%string /\
      forall i x, nth_error (values (Scenario.numbers "flat" [7; 7; 7]%Q)) i
                  = Some (Some x) ->
        exists y, nth_error (values c') i = Some (Some y) /\ (y == 0)%Q.
Proof.
  intros df. eexists. split.
  - vm_compute. reflexivity.
  - apply (@constant_column_robust df _ []
             (Scenario.numbers "flat" [7; 7; 7]%Q) 7%Q).
    + repeat constructor.
    + reflexivity.
    + vm_compute. reflexivity.
    + vm_compute. now left.
    + simpl. intros x [<- | [<- | [<- | []]]]; reflexivity.
Defined.

(** ** Missing values *)

Definition is_missing {A : Type} (o : option A) : bool :=
  match o with
  | None => true
  | Some _ => false
  end.

Lemma missing_option_map {A : Type} (g : A -> A) (X : list (option A)) :
  map is_missing (map (option_map g) X) = map is_missing X.
Proof.
  rewrite map_map. apply map_ext. intros [x|]; reflexivity.
Qed.

Lemma MinMaxScaler_missing (feature_range : Q * Q) (X : list (option Q)) :
  map is_missing (MinMax.MinMaxScaler feature_range X) = map is_missing X.
Proof.
  unfold MinMax.MinMaxScaler.
  destruct (MinMax.nanmin (present X)), (MinMax.nanmax (present X));
    try reflexivity.
  apply missing_option_map.
Qed.

Lemma StandardScaler_missing (X : list (option R)) :
  map is_missing (Standard.StandardScaler X) = map is_missing X.
Proof.
  unfold Standard.StandardScaler. destruct (present X); [reflexivity|].
  apply missing_option_map.
Qed.

Lemma RobustScaler_missing (X : list (option Q)) :
  map is_missing (Robust.RobustScaler X) = map is_missing X.
Proof.
  unfold Robust.RobustScaler. destruct (present X); [reflexivity|].
  apply missing_option_map.
Qed.

Lemma scaler_missing (f : func) (X : list (option (num_of f))) :
  map is_missing (scaler f X) = map is_missing X.
Proof.
  destruct f; simpl.
  - apply MinMaxScaler_missing.
  - apply MinMaxScaler_missing.
  - apply StandardScaler_missing.
  - apply RobustScaler_missing.
Qed.

(** X16. Over the default index, each of the four functions leaves the
    missing values of every numeric candidate where they are: a row that
    holds no value in the input holds none in the result, and a row that
    holds a value holds one. *)
Theorem missing_values_kept
    (f : func) (df out : DataFrame (num_of f)) (excluded : list string)
    (c : column (num_of f)) :
  well_formed df ->
  index df = RangeIndex (nrows df) ->
  fst (run f df excluded) = Ok out ->
  In c (numeric_block df excluded) ->
  exists c', In c' (columns out) /\ cname c' = cname c /\
             map is_missing (values c') = map is_missing (values c).
Proof.
  intros Hwf Hidx H Hc. rewrite run_scaler in H.
  apply normalize_positional in H; [|apply scaler_length|assumption|assumption].
  subst out. exists (scaled (scaler f) c). simpl.
  split; [apply in_or_app; right; now apply in_map|]. split; [reflexivity|].
  apply scaler_missing.
Qed.

Lemma missing_values_kept_witness :
  let df := mkdf [0; 1; 2; 3]%Z
              [mkcol "x" (NumData [Some 1; None; Some 3; Some 9]%Q)] in
  exists out : DataFrame Q,
    fst (zero_one_normalize df []) = Ok out /\
    exists c', In c' (columns out) /\ cname c' = "x"%string /\
               map is_missing (values c') = [false; true; false; false].
Proof.
  intros df. eexists. split.
  - vm_compute. reflexivity.
  - apply (@missing_values_kept ZeroOne df _ []
             (mkcol "x" (NumData [Some 1; None; Some 3; Some 9]%Q))).
    + repeat constructor.
    + reflexivity.
    + vm_compute. reflexivity.
    + vm_compute. now left.
Defined.
